(** * Mapisse: the Wikidata harvesting pipeline

    A shallow embedding of [src/mapisse/data/wikidata.py]: the SPARQL
    executor with its retry loop, the row normaliser ([_is_qid],
    [_parse_coordinates] and the loop of the two batch fetchers), the
    paginator and the two-phase orchestrator [fetch_all_artworks]. *)

From Stdlib Require Import ZArith NArith QArith Bool List String Ascii Lia Sorted.
From stdpp Require Import base option list gmap strings.

Local Open Scope Z_scope.

(** ** Python text

    A Python [str] is a sequence of Unicode code points.  What the source
    asks of a code point ([str.isdigit], the classes [\d] and [\s] of [re],
    the digit value read by [float]) comes from CPython's Unicode database,
    which is not part of the repository: it is an interface here, fixed on
    the ASCII range, where the tables are known. *)

Definition pystr := list N.

Definition py (s : string) : pystr := map N_of_ascii (list_ascii_of_string s).

Definition in_range (lo hi c : N) : bool := ((lo <=? c) && (c <=? hi))%N.

Class UnicodeData := {
  (** [str.isdigit] on one code point *)
  ch_isdigit : N -> bool;
  (** the class [\d] of [re] (category Nd), also the digits [float] reads *)
  ch_isdecimal : N -> bool;
  (** the value of a decimal digit *)
  ch_decimal : N -> Z;
  (** the class [\s] of [re] *)
  ch_isspace : N -> bool;
  ch_isdigit_ascii : forall c, (c < 128)%N -> ch_isdigit c = in_range 48 57 c;
  ch_isdecimal_ascii : forall c, (c < 128)%N -> ch_isdecimal c = in_range 48 57 c;
  ch_decimal_ascii : forall c, in_range 48 57 c = true -> ch_decimal c = Z.of_N c - 48;
  ch_isspace_ascii :
    forall c, (c < 128)%N -> ch_isspace c = in_range 9 13 c || in_range 28 32 c;
  ch_space_not_decimal : forall c, ch_isspace c = true -> ch_isdecimal c = false
}.

Definition HYPHEN : N := 45.
Definition DOT : N := 46.
Definition RPAREN : N := 41.
Definition LETTER_Q : N := 81.

(** [s.startswith(prefix)], returning what follows the prefix. *)
Fixpoint strip_prefix (prefix s : pystr) : option pystr :=
  match prefix, s with
  | [], _ => Some s
  | p :: prefix', c :: s' => if (p =? c)%N then strip_prefix prefix' s' else None
  | _ :: _, [] => None
  end.

Definition startswith (s prefix : pystr) : bool :=
  match strip_prefix prefix s with Some _ => true | None => false end.

(** [s[1:]] *)
Definition slice_from_1 (s : pystr) : pystr := tl s.

(** [s.replace(c, "")] for a one-character [c]: every occurrence goes. *)
Definition replace_char_empty (c : N) (s : pystr) : pystr :=
  List.filter (fun x => negb (x =? c)%N) s.

(** The longest prefix of [s] inside a character class, and the rest. *)
Fixpoint span (p : N -> bool) (s : pystr) : pystr * pystr :=
  match s with
  | [] => ([], [])
  | c :: s' =>
      if p c then let '(a, b) := span p s' in (c :: a, b) else ([], s)
  end.

Definition is_nil {A} (l : list A) : bool :=
  match l with [] => true | _ => false end.

Section Text.
Context `{UnicodeData}.

(** [s.isdigit()]: every character is a digit and there is at least one. *)
Definition isdigit (s : pystr) : bool := negb (is_nil s) && forallb ch_isdigit s.

(** [_is_qid] *)
Definition _is_qid (label : pystr) : bool :=
  if is_nil label then true
  else startswith label (py "Q")
       && isdigit (replace_char_empty HYPHEN (slice_from_1 label)).

(** The class [[-\d.]] of the coordinate pattern. *)
Definition tok_char (c : N) : bool :=
  (c =? HYPHEN)%N || ch_isdecimal c || (c =? DOT)%N.

(** [re.match(r"Point\(([-\d.]+)\s+([-\d.]+)\)", s)]: the two groups of the
    match, if there is one.  [re.match] anchors the pattern at the start
    of [s] only.  The classes [[-\d.]] and [\s] are disjoint and neither
    holds the closing parenthesis, so every repetition takes the whole
    run of its class and backtracking has nothing else to try. *)
Definition match_point (s : pystr) : option (pystr * pystr) :=
  match strip_prefix (py "Point(") s with
  | None => None
  | Some s1 =>
      let '(g1, s2) := span tok_char s1 in
      let '(ws, s3) := span ch_isspace s2 in
      let '(g2, s4) := span tok_char s3 in
      match s4 with
      | c :: _ =>
          if negb (is_nil g1) && negb (is_nil ws) && negb (is_nil g2)
             && (c =? RPAREN)%N
          then Some (g1, g2) else None
      | [] => None
      end
  end.

(** The number a run of decimal digits denotes. *)
Definition digits_value (ds : pystr) : Z :=
  fold_left (fun acc c => 10 * acc + ch_decimal c) ds 0.

(** The decimal number with integer digits [ip] and fraction digits [fp].
    It stands for the float: CPython rounds it to the nearest double,
    which changes no integer below 2^53 and keeps the order. *)
Definition decimal_number (neg : bool) (ip fp : pystr) : Q :=
  let m := digits_value (ip ++ fp) in
  Qred ((if neg then - m else m) # Pos.of_nat (10 ^ length fp)).

(** What [float] makes of the part after the sign: digits with at most
    one point among them and at least one digit. *)
Definition float_of_digits (neg : bool) (body : pystr) : option Q :=
  let '(ip, r1) := span ch_isdecimal body in
  let '(fp, r3) :=
    match r1 with
    | c :: r2 => if (c =? DOT)%N then span ch_isdecimal r2 else ([], r1)
    | [] => ([], [])
    end in
  if is_nil r3 && negb (is_nil ip && is_nil fp)
  then Some (decimal_number neg ip fp)
  else None.

(** [float(tok)] for a token over the alphabet [[-\d.]] of the pattern's
    groups: an optional minus sign, then the digits; anything else is a
    [ValueError] ([None]). *)
Definition float_of_token (tok : pystr) : option Q :=
  match tok with
  | c :: r =>
      if (c =? HYPHEN)%N then float_of_digits true r
      else float_of_digits false tok
  | [] => float_of_digits false tok
  end.

(** [_parse_coordinates] *)
Definition _parse_coordinates (coord_str : option pystr) : option Q * option Q :=
  match coord_str with
  | None => (None, None)
  | Some s =>
      if is_nil s then (None, None)
      else match match_point s with
           | None => (None, None)
           | Some (g1, g2) =>
               match float_of_token g1 with
               | None => (None, None)
               | Some lon =>
                   match float_of_token g2 with
                   | None => (None, None)
                   | Some lat => (Some lat, Some lon)
                   end
               end
           end
  end.
End Text.

(** ** Raw rows and artwork records *)

(** A row of the results envelope maps a variable name to a value object,
    itself a mapping with (at least) the key ["value"]. *)
Abbreviation Binding := (gmap string pystr).
Abbreviation Row := (gmap string (gmap string pystr)).

Record ArtworkRecord := {
  painter : pystr;
  painting : pystr;
  museum : pystr;
  city : pystr;
  country : pystr;
  lat : option Q;
  lon : option Q;
  wikipedia_url : pystr
}.

(** [row.get(var, {}).get("value")] *)
Definition get_value (row : Row) (var : string) : option pystr :=
  (default (∅ : Binding) (row !! var)) !! "value"%string.

(** [row.get(var, {}).get("value", dflt)] *)
Definition get_value_or (row : Row) (var : string) (dflt : pystr) : pystr :=
  default dflt (get_value row var).

Section Normalizer.
Context `{UnicodeData}.

(** The body of [for row in results] in [fetch_notable_paintings_batch]
    and, word for word, in [fetch_museum_paintings_batch]: [None] is the
    [continue] that skips the row, [Some r] the record appended. *)
Definition row_record (row : Row) : option ArtworkRecord :=
  let painter_label := get_value_or row "painterLabel" (py "") in
  let painting_label := get_value_or row "paintingLabel" (py "") in
  let museum_label := get_value_or row "museumLabel" (py "") in
  let country_label := get_value_or row "countryLabel" (py "Unknown") in
  let coords_str := get_value row "coords" in
  let wiki_url := get_value_or row "article" (py "") in
  if _is_qid painter_label || _is_qid painting_label || _is_qid museum_label
  then None
  else
    let '(lat, lon) := _parse_coordinates coords_str in
    Some {| painter := painter_label;
            painting := painting_label;
            museum := museum_label;
            city := py "Unknown";
            country := country_label;
            lat := lat;
            lon := lon;
            wikipedia_url := wiki_url |}.

(** [paintings = []; for row in results: ...; return paintings] *)
Fixpoint collect_paintings (results : list Row) (paintings : list ArtworkRecord)
  : list ArtworkRecord :=
  match results with
  | [] => paintings
  | row :: results' =>
      match row_record row with
      | None => collect_paintings results' paintings
      | Some r => collect_paintings results' (paintings ++ [r])
      end
  end.
End Normalizer.

(** ** The remote endpoint and the effects of a run *)

Inductive Strategy := Notable | Museum.

(** The query text is fixed by the template, the offset and the limit. *)
Record Query := { q_strategy : Strategy; q_offset : Z; q_limit : Z }.

(** Exceptions, by class.  [RequestException n] is the instance raised when
    the budget is spent, with its message "Query failed after n retries". *)
Inductive Exn :=
| Timeout
| ConnectionError
| HTTPError (status : Z)
| JSONDecodeError
| RequestException (max_retries : Z)
| KeyError
| TypeError.

(** [isinstance(e, requests.exceptions.Timeout)] *)
Definition is_Timeout (e : Exn) : bool :=
  match e with Timeout => true | _ => false end.

(** [isinstance(e, requests.exceptions.RequestException)] *)
Definition is_RequestException (e : Exn) : bool :=
  match e with
  | Timeout | ConnectionError | HTTPError _ | JSONDecodeError
  | RequestException _ => true
  | KeyError | TypeError => false
  end.

(** What [response.json()["results"]["bindings"]] gives. *)
Inductive Body :=
| Bindings (rows : list Row)
| BodyRaises (e : Exn).

Record Response := { status_code : Z; body : Body }.

Inductive PostOutcome :=
| PostRaises (e : Exn)
| PostReturns (r : Response).

Inductive Event :=
| EvPost (q : Query)
| EvSleep (seconds : Z).

(** The state of a run: how many requests were sent, and the requests and
    sleeps in the order they happened. *)
Record World := { clock : nat; trace : list Event }.

Inductive Result (A : Type) :=
| Returned (a : A)
| Raised (e : Exn).
Arguments Returned {A} a.
Arguments Raised {A} e.

(** A computation: state in, result and state out; [None] only when a loop
    of the model ran out of fuel. *)
Definition M (A : Type) : Type := World -> option (Result A * World).

Definition ret {A} (a : A) : M A := fun w => Some (Returned a, w).

Definition raise {A} (e : Exn) : M A := fun w => Some (Raised e, w).

Definition out_of_fuel {A} : M A := fun _ => None.

Definition bind {A B} (m : M A) (f : A -> M B) : M B :=
  fun w =>
    match m w with
    | None => None
    | Some (Raised e, w') => Some (Raised e, w')
    | Some (Returned a, w') => f a w'
    end.

(** [try: m  except ...: h e] *)
Definition try_except {A} (m : M A) (h : Exn -> M A) : M A :=
  fun w =>
    match m w with
    | Some (Raised e, w') => h e w'
    | r => r
    end.

Notation "x <- m ;; k" := (bind m (fun x => k))
  (at level 63, m at next level, right associativity).
Notation "m ;;; k" := (bind m (fun _ => k))
  (at level 63, right associativity).

(** [time.sleep(seconds)] *)
Definition sleep (seconds : Z) : M unit :=
  fun w => Some (Returned tt, {| clock := clock w; trace := trace w ++ [EvSleep seconds] |}).

(** config.py and the query settings of wikidata.py *)
Definition RATE_LIMIT_SLEEP : Z := 2.
Definition RATE_LIMIT_RETRY_SLEEP : Z := 30.
Definition MAX_RETRIES : Z := 5.
Definition BATCH_SIZE : Z := 200.

(** [response.raise_for_status()] *)
Definition raise_for_status (response : Response) : M unit :=
  if (400 <=? status_code response) && (status_code response <? 600)
  then raise (HTTPError (status_code response))
  else ret tt.

(** [response.json()["results"]["bindings"]] *)
Definition json_bindings (response : Response) : M (list Row) :=
  match body response with
  | Bindings rows => ret rows
  | BodyRaises e => raise e
  end.

Definition status_in (codes : list Z) (response : Response) : bool :=
  existsb (Z.eqb (status_code response)) codes.
Arguments status_in : simpl never.

(** How one pass through the body of [while retries < max_retries] ends. *)
Inductive Attempt :=
| Return (rows : list Row)
| Continue (retries : Z).

Section Executor.
(** The endpoint: what the n-th request of the run gets for its query. *)
Variable net : nat -> Query -> PostOutcome.

(** [requests.post(WIKIDATA_SPARQL_ENDPOINT, data={"query": query}, ...)] *)
Definition post (query : Query) : M Response :=
  fun w =>
    let w' := {| clock := S (clock w); trace := trace w ++ [EvPost query] |} in
    match net (clock w) query with
    | PostRaises e => Some (Raised e, w')
    | PostReturns r => Some (Returned r, w')
    end.

(** The [try] statement inside the loop of [_execute_sparql]. *)
Definition attempt (query : Query) (retries : Z) : M Attempt :=
  try_except
    (response <- post query ;;
     if status_code response =? 429 then
       sleep RATE_LIMIT_RETRY_SLEEP ;;;
       ret (Continue (retries + 1))
     else if status_in [500; 502; 503; 504] response then
       let retries := retries + 1 in
       let wait_time := RATE_LIMIT_RETRY_SLEEP * retries in
       sleep wait_time ;;;
       ret (Continue retries)
     else
       raise_for_status response ;;;
       rows <- json_bindings response ;;
       ret (Return rows))
    (fun e =>
       if is_Timeout e then
         let retries := retries + 1 in
         let wait_time := RATE_LIMIT_RETRY_SLEEP * retries in
         sleep wait_time ;;;
         ret (Continue retries)
       else if is_RequestException e then
         let retries := retries + 1 in
         let wait_time := RATE_LIMIT_RETRY_SLEEP * retries in
         sleep wait_time ;;;
         ret (Continue retries)
       else raise e).

(** [while retries < max_retries: ...] followed by the final [raise]. *)
Fixpoint execute_loop (fuel : nat) (query : Query) (max_retries retries : Z)
  : M (list Row) :=
  match fuel with
  | O => out_of_fuel
  | S fuel' =>
      if retries <? max_retries then
        a <- attempt query retries ;;
        match a with
        | Return rows => ret rows
        | Continue retries' => execute_loop fuel' query max_retries retries'
        end
      else raise (RequestException max_retries)
  end.

(** [_execute_sparql] *)
Definition _execute_sparql (query : Query) (max_retries : Z) : M (list Row) :=
  execute_loop (S (Z.to_nat max_retries)) query max_retries 0.
End Executor.

(** ** Batch fetchers, paginator and orchestrator *)

Inductive DType := Utf8 | Float64.

(** A polars frame: the declared columns and the rows under them. *)
Record DataFrame := {
  columns : list (string * DType);
  rows : list ArtworkRecord
}.

(** The [schema=] argument of both [pl.DataFrame] calls. *)
Definition SCHEMA : list (string * DType) :=
  [("painter", Utf8); ("painting", Utf8); ("museum", Utf8); ("city", Utf8);
   ("country", Utf8); ("lat", Float64); ("lon", Float64);
   ("wikipedia_url", Utf8)]%string.

(** The identity key: the [subset=] argument of [df.unique]. *)
Definition key (r : ArtworkRecord) : pystr * pystr * pystr :=
  (painter r, painting r, museum r).

(** How one pass through the body of [while True] ends. *)
Inductive Paging :=
| Break (all_rows : list ArtworkRecord)
| Next (offset : Z) (all_rows : list ArtworkRecord).

Section Harvest.
Context `{UnicodeData}.
Variable net : nat -> Query -> PostOutcome.
(** [df.unique(subset=["painter", "painting", "museum"])] on the rows of a
    frame.  It is polars' function, called with its defaults
    ([keep="any"], [maintain_order=False]). *)
Variable unique : list ArtworkRecord -> list ArtworkRecord.

(** [fetch_notable_paintings_batch] *)
Definition fetch_notable_paintings_batch (offset limit : Z) : M (list ArtworkRecord) :=
  let query := {| q_strategy := Notable; q_offset := offset; q_limit := limit |} in
  results <- _execute_sparql net query MAX_RETRIES ;;
  ret (collect_paintings results []).

(** [fetch_museum_paintings_batch] *)
Definition fetch_museum_paintings_batch (offset limit : Z) : M (list ArtworkRecord) :=
  let query := {| q_strategy := Museum; q_offset := offset; q_limit := limit |} in
  results <- _execute_sparql net query MAX_RETRIES ;;
  ret (collect_paintings results []).

(** The [try] statement inside [while True] (strategy 1). *)
Definition notable_page (offset : Z) (all_rows : list ArtworkRecord) : M Paging :=
  try_except
    (batch <- fetch_notable_paintings_batch offset BATCH_SIZE ;;
     if is_nil batch then ret (Break all_rows)
     else
       let all_rows := all_rows ++ batch in
       let offset := offset + BATCH_SIZE in
       if offset >=? 2000 then ret (Break all_rows)
       else
         sleep RATE_LIMIT_SLEEP ;;;
         ret (Next offset all_rows))
    (fun e => ret (Break all_rows)).

(** [while True: ...] of strategy 1. *)
Fixpoint notable_loop (fuel : nat) (offset : Z) (all_rows : list ArtworkRecord)
  : M (list ArtworkRecord) :=
  match fuel with
  | O => out_of_fuel
  | S fuel' =>
      p <- notable_page offset all_rows ;;
      match p with
      | Break all_rows' => ret all_rows'
      | Next offset' all_rows' => notable_loop fuel' offset' all_rows'
      end
  end.

(** The [try] statement inside [for sample_offset in sample_offsets]. *)
Definition sample_page (sample_offset : Z) (all_rows : list ArtworkRecord)
  : M (list ArtworkRecord) :=
  try_except
    (batch <- fetch_museum_paintings_batch sample_offset BATCH_SIZE ;;
     let all_rows := if is_nil batch then all_rows else all_rows ++ batch in
     sleep RATE_LIMIT_SLEEP ;;;
     ret all_rows)
    (fun e => ret all_rows).

(** [for sample_offset in sample_offsets: ...] of strategy 2. *)
Fixpoint sample_loop (sample_offsets : list Z) (all_rows : list ArtworkRecord)
  : M (list ArtworkRecord) :=
  match sample_offsets with
  | [] => ret all_rows
  | sample_offset :: rest =>
      all_rows' <- sample_page sample_offset all_rows ;;
      sample_loop rest all_rows'
  end.

Definition sample_offsets : list Z := [0; 5000; 10000; 20000; 30000; 50000].

(** Pages strategy 1 can take before its offset reaches the limit. *)
Definition NOTABLE_FUEL : nat := 10.

(** Both phases of [fetch_all_artworks]: the rows accumulated in
    [all_rows] when the frame is built. *)
Definition harvest_rows : M (list ArtworkRecord) :=
  all_rows <- notable_loop NOTABLE_FUEL 0 [] ;;
  sample_loop sample_offsets all_rows.

(** [fetch_all_artworks] *)
Definition fetch_all_artworks : M DataFrame :=
  all_rows <- harvest_rows ;;
  if is_nil all_rows then ret {| columns := SCHEMA; rows := [] |}
  else
    let df := {| columns := SCHEMA; rows := all_rows |} in
    let df := {| columns := columns df; rows := unique (rows df) |} in
    ret df.
End Harvest.

(** ** The popup of a museum ([map/renderer.py]) *)

Definition AMP : N := 38.
Definition LT : N := 60.
Definition GT : N := 62.
Definition QUOTE : N := 34.
Definition APOS : N := 39.

(** [s.replace(c, new)] for a one-character [c]. *)
Definition str_replace_char (c : N) (new : pystr) (s : pystr) : pystr :=
  flat_map (fun x => if (x =? c)%N then new else [x]) s.

(** [html.escape(s)], with its default [quote=True]: five replacements
    one after the other, the ampersand first. *)
Definition html_escape (s : pystr) : pystr :=
  let s := str_replace_char AMP (py "&amp;") s in
  let s := str_replace_char LT (py "&lt;") s in
  let s := str_replace_char GT (py "&gt;") s in
  let s := str_replace_char QUOTE (py "&quot;") s in
  str_replace_char APOS (py "&#x27;") s.

(** The digits of a decimal number, as characters. *)
Fixpoint uint_digits (d : Decimal.uint) : pystr :=
  match d with
  | Decimal.Nil => []
  | Decimal.D0 d' => 48%N :: uint_digits d'
  | Decimal.D1 d' => 49%N :: uint_digits d'
  | Decimal.D2 d' => 50%N :: uint_digits d'
  | Decimal.D3 d' => 51%N :: uint_digits d'
  | Decimal.D4 d' => 52%N :: uint_digits d'
  | Decimal.D5 d' => 53%N :: uint_digits d'
  | Decimal.D6 d' => 54%N :: uint_digits d'
  | Decimal.D7 d' => 55%N :: uint_digits d'
  | Decimal.D8 d' => 56%N :: uint_digits d'
  | Decimal.D9 d' => 57%N :: uint_digits d'
  end.

(** The text of a number that is not negative, as an f-string writes it. *)
Definition str_of_nat (n : nat) : pystr := uint_digits (Nat.to_uint n).

(** [dict[str, list[tuple[str, str]]]], its items in insertion order.  No
    two items of a dict have the same key. *)
Definition Dict : Type := list (pystr * list (pystr * pystr)).

(** [k in d] *)
Definition dict_mem (k : pystr) (d : Dict) : bool :=
  existsb (fun item => bool_decide (fst item = k)) d.

(** [d.get(k)] *)
Fixpoint dict_get (k : pystr) (d : Dict) : option (list (pystr * pystr)) :=
  match d with
  | [] => None
  | (k', vs) :: d' => if bool_decide (k' = k) then Some vs else dict_get k d'
  end.

(** [d[k].append(v)]; the key is there when the renderer does it. *)
Fixpoint dict_append (k : pystr) (v : pystr * pystr) (d : Dict) : Dict :=
  match d with
  | [] => []
  | (k', vs) :: d' =>
      if bool_decide (k' = k) then (k', vs ++ [v]) :: d'
      else (k', vs) :: dict_append k v d'
  end.

(** [zip(painters, paintings, wiki_urls)] *)
Fixpoint zip3 {A B C} (l1 : list A) (l2 : list B) (l3 : list C)
  : list (A * B * C) :=
  match l1, l2, l3 with
  | a :: l1', b :: l2', c :: l3' => (a, b, c) :: zip3 l1' l2' l3'
  | _, _, _ => []
  end.

(** The loop that fills [paintings_by_painter], the same in
    [render_all_museums] and in [render_filtered_museums]; a url that is
    null or empty is stored as the empty string ([wiki_url or ""]). *)
Fixpoint group_loop (rows : list (pystr * pystr * option pystr)) (d : Dict) : Dict :=
  match rows with
  | [] => d
  | (painter, painting, wiki_url) :: rows' =>
      let d := if dict_mem painter d then d else d ++ [(painter, [])] in
      let d := dict_append painter (painting, default [] wiki_url) d in
      group_loop rows' d
  end.

(** [paintings_by_painter] of one group of rows; without a url column
    the urls are [[""] * len(painters)]. *)
Definition paintings_by_painter (painters paintings : list pystr)
    (wiki_urls : option (list (option pystr))) : Dict :=
  let wiki_urls :=
    match wiki_urls with
    | Some urls => urls
    | None => repeat (Some []) (length painters)
    end in
  group_loop (zip3 painters paintings wiki_urls) [].

(** [a < b] on strings: the order of the code points, a prefix first. *)
Fixpoint str_lt (a b : pystr) : bool :=
  match a, b with
  | _, [] => false
  | [], _ :: _ => true
  | x :: a', y :: b' => (x <? y)%N || ((x =? y)%N && str_lt a' b')
  end.

(** [sorted(d.items())]: the keys of a dict differ, so the order of the
    items is the order of their keys. *)
Fixpoint insert_item (x : pystr * list (pystr * pystr)) (l : Dict) : Dict :=
  match l with
  | [] => [x]
  | y :: l' => if str_lt (fst y) (fst x) then y :: insert_item x l' else x :: l
  end.

Definition sorted_items (d : Dict) : Dict := fold_right insert_item [] d.

(** [next((url for _, url in paintings if url), "")] *)
Fixpoint first_url (paintings : list (pystr * pystr)) : pystr :=
  match paintings with
  | [] => []
  | (_, url) :: rest => if is_nil url then first_url rest else url
  end.

(** [list(d.keys()).index(k)]; the key is there when the popup asks. *)
Fixpoint index_of (k : pystr) (keys : list pystr) : nat :=
  match keys with
  | [] => 0
  | k' :: keys' => if bool_decide (k' = k) then 0 else S (index_of k keys')
  end.

(** [for painting_title, _ in paintings[:5]: ...] *)
Fixpoint titles_loop (paintings : list (pystr * pystr)) (content : pystr)
    (total_shown : nat) : pystr * nat :=
  match paintings with
  | [] => (content, total_shown)
  | (painting_title, _) :: rest =>
      let painting_escaped := html_escape painting_title in
      let content := content ++ py "<li>" ++ painting_escaped ++ py "</li>" in
      titles_loop rest content (total_shown + 1)
  end.

(** [for painter, paintings in sorted(paintings_by_painter.items()): ...] *)
Fixpoint popup_loop (paintings_by_painter : Dict) (items : Dict) (content : pystr)
    (total_shown : nat) : pystr :=
  match items with
  | [] => content
  | (painter, paintings) :: items' =>
      let painter_escaped := html_escape painter in
      let wiki_url := first_url paintings in
      let content :=
        if negb (is_nil wiki_url) then
          content ++ py "<b><a href=" ++ [QUOTE] ++ wiki_url ++ [QUOTE]
          ++ py " target=" ++ [QUOTE] ++ py "_blank" ++ [QUOTE] ++ py ">"
          ++ painter_escaped ++ py "</a></b>"
        else content ++ py "<b>" ++ painter_escaped ++ py "</b>" in
      let content :=
        content ++ py "<ul style='margin: 2px 0 8px 0; padding-left: 16px;'>" in
      let '(content, total_shown) :=
        titles_loop (firstn 5 paintings) content total_shown in
      let content :=
        if (5 <? length paintings)%nat then
          content ++ py "<li><i>...+" ++ str_of_nat (length paintings - 5)
          ++ py " more</i></li>"
        else content in
      let content := content ++ py "</ul>" in
      if (15 <=? total_shown)%nat then
        let remaining_painters :=
          Z.of_nat (length paintings_by_painter)
          - Z.of_nat (index_of painter (map fst paintings_by_painter)) - 1 in
        if 0 <? remaining_painters then
          content ++ py "<p><i>...and " ++ str_of_nat (Z.to_nat remaining_painters)
          ++ py " more artists</i></p>"
        else content
      else popup_loop paintings_by_painter items' content total_shown
  end.

(** [_build_popup_html] *)
Definition _build_popup_html (museum country : pystr) (paintings_by_painter : Dict)
  : pystr :=
  let museum_escaped := html_escape museum in
  let country_escaped := html_escape country in
  let content :=
    py "<b>" ++ museum_escaped ++ py "</b><br><i>" ++ country_escaped
    ++ py "</i><br><br>" in
  popup_loop paintings_by_painter (sorted_items paintings_by_painter) content 0.

(** * The vocabulary of the properties *)

(** ** A concrete Unicode database *)

(** The database cut down to Latin-1 (code points below 256): the digits
    0-9, the superscripts U+00B2, U+00B3, U+00B9 for [isdigit], and the
    spaces U+0085 and U+00A0. *)
Definition latin1_isdigit (c : N) : bool :=
  in_range 48 57 c || (c =? 178)%N || (c =? 179)%N || (c =? 185)%N.

Definition latin1_isspace (c : N) : bool :=
  in_range 9 13 c || in_range 28 32 c || (c =? 133)%N || (c =? 160)%N.

#[export] Instance latin1_data : UnicodeData.
Proof.
  refine {| ch_isdigit := latin1_isdigit;
            ch_isdecimal := in_range 48 57;
            ch_decimal := fun c => Z.of_N c - 48;
            ch_isspace := latin1_isspace |}.
  - intros c Hc. unfold latin1_isdigit.
    destruct (N.eqb_spec c 178), (N.eqb_spec c 179), (N.eqb_spec c 185);
      try lia. now rewrite !orb_false_r.
  - reflexivity.
  - reflexivity.
  - intros c Hc. unfold latin1_isspace.
    destruct (N.eqb_spec c 133), (N.eqb_spec c 160); try lia.
    now rewrite !orb_false_r.
  - intros c. unfold latin1_isspace, in_range.
    rewrite !orb_true_iff, !andb_true_iff, !N.leb_le, !N.eqb_eq. intros Hs.
    apply andb_false_iff. rewrite !N.leb_gt. lia.
Defined.

(** ** Traces *)

(** The sleeps of a trace, in order. *)
Fixpoint sleeps (t : list Event) : list Z :=
  match t with
  | [] => []
  | EvSleep d :: t' => d :: sleeps t'
  | EvPost _ :: t' => sleeps t'
  end.

(** The requests of a trace, in order. *)
Fixpoint posts (t : list Event) : list Query :=
  match t with
  | [] => []
  | EvPost q :: t' => q :: posts t'
  | EvSleep _ :: t' => posts t'
  end.

Definition posted (q : Query) (w : World) : World :=
  {| clock := S (clock w); trace := trace w ++ [EvPost q] |}.

Definition slept (d : Z) (w : World) : World :=
  {| clock := clock w; trace := trace w ++ [EvSleep d] |}.

Definition w0 : World := {| clock := 0; trace := [] |}.

(** ** Outcomes of a request *)

(** The outcomes the executor's policy names: rate limiting, the four
    server errors, a timeout. *)
Definition is_rate_limited (out : PostOutcome) : bool :=
  match out with
  | PostReturns r => status_code r =? 429
  | PostRaises _ => false
  end.

Definition is_server_error (out : PostOutcome) : bool :=
  match out with
  | PostReturns r => status_in [500; 502; 503; 504] r
  | PostRaises _ => false
  end.

Definition is_timeout (out : PostOutcome) : bool :=
  match out with
  | PostRaises e => is_Timeout e
  | PostReturns _ => false
  end.

Definition is_connection_error (out : PostOutcome) : bool :=
  match out with
  | PostRaises ConnectionError => true
  | _ => false
  end.

Definition retryable (out : PostOutcome) : bool :=
  is_rate_limited out || is_server_error out || is_timeout out
  || is_connection_error out.

(** A good answer: a 2xx status and a body with the rows in it. *)
Definition is_success (out : PostOutcome) : bool :=
  match out with
  | PostReturns r =>
      (200 <=? status_code r) && (status_code r <? 300)
      && match body r with Bindings _ => true | BodyRaises _ => false end
  | PostRaises _ => false
  end.

(** What one attempt sleeps before the loop goes round again, if it does. *)
Definition retry_sleep (out : PostOutcome) (retries : Z) : option Z :=
  let backoff := Some (RATE_LIMIT_RETRY_SLEEP * (retries + 1)) in
  match out with
  | PostRaises e => if is_RequestException e then backoff else None
  | PostReturns r =>
      if status_code r =? 429 then Some RATE_LIMIT_RETRY_SLEEP
      else if status_in [500; 502; 503; 504] r then backoff
      else if (400 <=? status_code r) && (status_code r <? 600) then backoff
      else match body r with
           | Bindings _ => None
           | BodyRaises e => if is_RequestException e then backoff else None
           end
  end.

(** How an attempt that does not go round again leaves the loop. *)
Definition last_result (out : PostOutcome) : Result (list Row) :=
  match out with
  | PostRaises e => Raised e
  | PostReturns r =>
      match body r with
      | Bindings rows => Returned rows
      | BodyRaises e => Raised e
      end
  end.

(** The sleeps the policy text prescribes: 30 seconds for a 429, which
    leaves the multiplier alone, and 30 times [n] for a server error or a
    timeout, [n] counting the outcomes of these two kinds up to this one. *)
Fixpoint spec_sleeps (n : Z) (outs : list PostOutcome) : list Z :=
  match outs with
  | [] => []
  | out :: outs' =>
      if is_rate_limited out then 30 :: spec_sleeps n outs'
      else if is_server_error out || is_timeout out
           then 30 * (n + 1) :: spec_sleeps (n + 1) outs'
           else []
  end.

(** ** Labels and geometry texts *)

Definition LABELS : list string := ["painterLabel"; "paintingLabel"; "museumLabel"]%string.

(** A label the code takes for an untranslated identifier: the letter Q,
    then digits and hyphens only, at least one digit among them. *)
Definition placeholder `{UnicodeData} (label : pystr) : Prop :=
  exists t,
    label = LETTER_Q :: t
    /\ Forall (fun c => ch_isdigit c = true \/ c = HYPHEN) t
    /\ Exists (fun c => ch_isdigit c = true) t.

(** The placeholder pattern as the specification writes it, [^Q[0-9-]+$]
    with no other characters, and the rejection rule built on it. *)
Definition spec_placeholder (label : pystr) : bool :=
  match label with
  | c :: t =>
      (c =? LETTER_Q)%N && negb (is_nil t)
      && forallb (fun x => in_range 48 57 x || (x =? HYPHEN)%N) t
  | [] => false
  end.

Definition spec_rejects (row : Row) : bool :=
  existsb (fun var =>
             let label := get_value_or row var (py "") in
             is_nil label || spec_placeholder label) LABELS.

(** A text that starts with [Point(<g1> <g2>)]: two non-empty runs over
    [[-\d.]] between the parentheses, split by a non-empty run of space;
    what follows the closing parenthesis is free. *)
Definition point_prefix `{UnicodeData} (s g1 g2 : pystr) : Prop :=
  exists ws rest,
    s = py "Point(" ++ g1 ++ ws ++ g2 ++ RPAREN :: rest
    /\ g1 <> [] /\ Forall (fun c => tok_char c = true) g1
    /\ ws <> [] /\ Forall (fun c => ch_isspace c = true) ws
    /\ g2 <> [] /\ Forall (fun c => tok_char c = true) g2.

(** The digits of a number as [float] reads them: integer digits [ip]
    and fraction digits [fp], at least one digit in all, the point
    present or, with no fraction digits, absent. *)
Definition decimal_digits `{UnicodeData} (body ip fp : pystr) : Prop :=
  Forall (fun c => ch_isdecimal c = true) ip
  /\ Forall (fun c => ch_isdecimal c = true) fp
  /\ (ip <> [] \/ fp <> [])
  /\ (body = ip /\ fp = [] \/ body = ip ++ DOT :: fp).

(** A text that is [Point(<lon> <lat>)] and nothing more. *)
Definition whole_point_text `{UnicodeData} (s : pystr) : Prop :=
  exists g1 g2 ws,
    s = py "Point(" ++ g1 ++ ws ++ g2 ++ [RPAREN]
    /\ g1 <> [] /\ Forall (fun c => tok_char c = true) g1
    /\ ws <> [] /\ Forall (fun c => ch_isspace c = true) ws
    /\ g2 <> [] /\ Forall (fun c => tok_char c = true) g2.

(** ** Records and frames *)

(** A record made from a row that the endpoint sent. *)
Definition from_endpoint `{UnicodeData} (net : nat -> Query -> PostOutcome)
    (r : ArtworkRecord) : Prop :=
  exists n q resp results row,
    net n q = PostReturns resp /\ body resp = Bindings results
    /\ In row results /\ row_record row = Some r.

(** Where the coordinates of a record come from: both are absent, or both
    are present and are the two numbers at the start of the row's geometry
    text, [lon] the first and [lat] the second. *)
Definition coords_of_row `{UnicodeData} (row : Row) (r : ArtworkRecord) : Prop :=
  match lat r, lon r with
  | None, None => True
  | Some la, Some lo =>
      exists s g1 g2,
        get_value row "coords" = Some s /\ point_prefix s g1 g2
        /\ float_of_token g1 = Some lo /\ float_of_token g2 = Some la
  | _, _ => False
  end.

(** The coordinates of a record are a pair: both or neither. *)
Definition coords_paired (r : ArtworkRecord) : Prop :=
  lat r = None <-> lon r = None.

(** The ranges the data model declares for the coordinates. *)
Definition coords_in_range (r : ArtworkRecord) : Prop :=
  (forall v, lat r = Some v -> (- (90) <= v <= 90)%Q)
  /\ (forall v, lon r = Some v -> (- (180) <= v <= 180)%Q).

Definition COLUMN_NAMES : list string :=
  ["painter"; "painting"; "museum"; "city"; "country"; "lat"; "lon";
   "wikipedia_url"]%string.

(** ** What polars promises of [unique] *)

(** What polars promises of [unique] with [keep="any"]: no two rows of the
    output share a key, every row of the output is a row of the input, and
    every key of the input is the key of a row of the output. *)
Definition unique_any (input output : list ArtworkRecord) : Prop :=
  List.NoDup (map key output)
  /\ (forall r, In r output -> In r input)
  /\ (forall r, In r input -> In (key r) (map key output)).

Definition same_key (a b : ArtworkRecord) : bool := bool_decide (key a = key b).

(** Two functions within that promise: [keep="last"] and [keep="first"]
    with the order of the input maintained. *)
Definition unique_last (l : list ArtworkRecord) : list ArtworkRecord :=
  fold_right (fun r acc => if existsb (same_key r) acc then acc else r :: acc) [] l.

Definition unique_first (l : list ArtworkRecord) : list ArtworkRecord :=
  rev (unique_last (rev l)).

(** ** Queries, rows and endpoints of the examples *)

Definition notable_query (offset : Z) : Query :=
  {| q_strategy := Notable; q_offset := offset; q_limit := BATCH_SIZE |}.

Definition museum_query (offset : Z) : Query :=
  {| q_strategy := Museum; q_offset := offset; q_limit := BATCH_SIZE |}.

Definition respond (status : Z) (b : Body) : PostOutcome :=
  PostReturns {| status_code := status; body := b |}.

Definition ok (results : list Row) : PostOutcome := respond 200 (Bindings results).

(** A row given by its bindings, each a value object [{"value": v}]. *)
Definition row_of (bindings : list (string * string)) : Row :=
  list_to_map (map (fun kv => (fst kv, {[ "value"%string := py (snd kv) ]})) bindings).

Definition row_q_hyphen : Row :=
  row_of [("painterLabel", "Q-"); ("paintingLabel", "Mona Lisa");
          ("museumLabel", "Louvre")]%string.


Definition row_mona : Row :=
  row_of [("painterLabel", "Leonardo da Vinci"); ("paintingLabel", "Mona Lisa");
          ("museumLabel", "Louvre"); ("countryLabel", "France");
          ("coords", "Point(2.3358 48.8611)")]%string.

Definition row_mona_italy : Row :=
  row_of [("painterLabel", "Leonardo da Vinci"); ("paintingLabel", "Mona Lisa");
          ("museumLabel", "Louvre"); ("countryLabel", "Italy")]%string.

Definition row_far : Row :=
  row_of [("painterLabel", "Claude Monet"); ("paintingLabel", "Water Lilies");
          ("museumLabel", "Nowhere Museum"); ("coords", "Point(200 100)")]%string.

Definition rec_mona : ArtworkRecord :=
  {| painter := py "Leonardo da Vinci"; painting := py "Mona Lisa";
     museum := py "Louvre"; city := py "Unknown"; country := py "France";
     lat := Some (488611 # 10000)%Q; lon := Some (11679 # 5000)%Q;
     wikipedia_url := py "" |}.

Definition rec_mona_italy : ArtworkRecord :=
  {| painter := py "Leonardo da Vinci"; painting := py "Mona Lisa";
     museum := py "Louvre"; city := py "Unknown"; country := py "Italy";
     lat := None; lon := None; wikipedia_url := py "" |}.

(** An endpoint that answers every request with 404 Not Found. *)
Definition net_404 : nat -> Query -> PostOutcome :=
  fun _ _ => respond 404 (BodyRaises JSONDecodeError).

(** Five server errors in a row: the budget is spent. *)
Definition net_503 : nat -> Query -> PostOutcome :=
  fun _ _ => respond 503 (BodyRaises JSONDecodeError).

(** A 429, then a 503, then a good answer. *)
Definition outs_429_503 : list PostOutcome :=
  [respond 429 (BodyRaises JSONDecodeError);
   respond 503 (BodyRaises JSONDecodeError);
   respond 200 (Bindings [])].

Definition net_429_503 : nat -> Query -> PostOutcome :=
  fun n _ => nth n outs_429_503 (respond 200 (Bindings [])).

(** Three 503 in a row and then a good answer: sleeps of 30, 60 and 90. *)
Definition net_503x3 : nat -> Query -> PostOutcome :=
  fun n _ => if (n <? 3)%nat then respond 503 (BodyRaises JSONDecodeError)
             else respond 200 (Bindings []).


(** An endpoint that has nothing: every page is empty. *)
Definition net_empty : nat -> Query -> PostOutcome := fun _ _ => ok [].

(** An endpoint where both strategies find the same painting, strategy 1
    with country France and coordinates, strategy 2 with country Italy. *)
Definition net_twice : nat -> Query -> PostOutcome :=
  fun _ q =>
    match q_strategy q with
    | Notable => if q_offset q =? 0 then ok [row_mona] else ok []
    | Museum => if q_offset q =? 0 then ok [row_mona_italy] else ok []
    end.

Definition net_far : nat -> Query -> PostOutcome :=
  fun _ q =>
    match q_strategy q with
    | Notable => if q_offset q =? 0 then ok [row_far] else ok []
    | Museum => ok []
    end.

(** ** Requests and sleeps of a whole run *)

(** The requests of a plan: each offset of the plan requested as many
    times as the plan says, one offset after the other. *)
Definition request_plan (mk : Z -> Query) (plan : list (Z * nat)) : list Query :=
  flat_map (fun p => repeat (mk (fst p)) (snd p)) plan.

(** The offsets of [n] pages in a row, from [offset] on. *)
Definition page_offsets (offset : Z) (n : nat) : list Z :=
  map (fun k => offset + BATCH_SIZE * Z.of_nat k) (seq 0 n).

(** Between one and five requests: what one call of the executor sends. *)
Definition tries (n : nat) : Prop := (1 <= n <= 5)%nat.

Definition sum_Z (l : list Z) : Z := fold_right Z.add 0 l.

(** Whether a result is the final [raise] of the executor (or would be
    caught as one). *)
Definition exhausted {A} (r : Result A) : bool :=
  match r with
  | Returned _ => false
  | Raised e => is_RequestException e
  end.

(** The sleeps a call of the executor has left to spend when it has
    counted [retries] retries: 30 x (retries + 1) + ... + 30 x max_retries. *)
Definition backoff_budget (max_retries retries : Z) : Z :=
  15 * (max_retries * (max_retries + 1) - retries * (retries + 1)).

(** A record as the data model wants its labels: none of the three is
    empty or an untranslated identifier, and the city is "Unknown". *)
Definition labelled `{UnicodeData} (r : ArtworkRecord) : Prop :=
  _is_qid (painter r) = false /\ _is_qid (painting r) = false
  /\ _is_qid (museum r) = false
  /\ painter r <> [] /\ painting r <> [] /\ museum r <> []
  /\ city r = py "Unknown".

(** A token that [float] reads as the number [v]: an optional minus sign,
    then digits with at most one point among them, at least one digit. *)
Definition decimal_token `{UnicodeData} (tok : pystr) (v : Q) : Prop :=
  exists (neg : bool) body ip fp,
    tok = (if neg then [HYPHEN] else []) ++ body
    /\ decimal_digits body ip fp /\ v = decimal_number neg ip fp.

(** ** Groups of paintings and the markup of a popup *)

(** What the rows of one painter put in the dict, in the order of the
    rows. *)
Definition entries_of (painter : pystr) (rows : list (pystr * pystr * option pystr))
  : list (pystr * pystr) :=
  map (fun r => (snd (fst r), default [] (snd r)))
      (List.filter (fun r => bool_decide (fst (fst r) = painter)) rows).

(** The painters of the rows, each once, in the order they first appear. *)
Fixpoint first_seen (seen : list pystr) (rows : list (pystr * pystr * option pystr))
  : list pystr :=
  match rows with
  | [] => []
  | r :: rows' =>
      let painter := fst (fst r) in
      if bool_decide (painter ∈ seen) then first_seen seen rows'
      else painter :: first_seen (seen ++ [painter]) rows'
  end.

(** A character that opens or closes nothing in HTML: not an angle
    bracket and not a quote. *)
Definition plain (c : N) : Prop := c <> LT /\ c <> GT /\ c <> QUOTE /\ c <> APOS.

(** The tags the popup is made of. *)
Definition TAGS : list pystr :=
  [py "<b>"; py "</b>"; py "<br>"; py "<i>"; py "</i>"; py "</a>";
   py "<ul style='margin: 2px 0 8px 0; padding-left: 16px;'>"; py "</ul>";
   py "<li>"; py "</li>"; py "<p>"; py "</p>"].

(** The opening tag of a link to [url]. *)
Definition link_tag (url : pystr) : pystr :=
  py "<a href=" ++ [QUOTE] ++ url ++ [QUOTE] ++ py " target=" ++ [QUOTE]
  ++ py "_blank" ++ [QUOTE] ++ py ">".

(** Markup in which every angle bracket and every quote belongs to one of
    the popup's own tags, or to a link whose url has none. *)
Inductive templated : pystr -> Prop :=
| templated_nil : templated []
| templated_char c s : plain c -> templated s -> templated (c :: s)
| templated_tag t s : In t TAGS -> templated s -> templated (t ++ s)
| templated_link url s :
    Forall plain url -> templated s -> templated (link_tag url ++ s).

(** The urls of a dict. *)
Definition urls_of (d : Dict) : list pystr :=
  flat_map (fun item => map snd (snd item)) d.

(** The pieces of a popup: its heading, *)
Definition popup_header (museum country : pystr) : pystr :=
  py "<b>" ++ html_escape museum ++ py "</b><br><i>" ++ html_escape country
  ++ py "</i><br><br>".

(** the item of one title, *)
Definition title_item (painting : pystr * pystr) : pystr :=
  py "<li>" ++ html_escape (fst painting) ++ py "</li>".

(** the block of one painter: the name, with a link when one of the
    paintings has a url, then at most five titles and the number of the
    others, *)
Definition painter_block (item : pystr * list (pystr * pystr)) : pystr :=
  (if is_nil (first_url (snd item))
   then py "<b>" ++ html_escape (fst item) ++ py "</b>"
   else py "<b>" ++ link_tag (first_url (snd item)) ++ html_escape (fst item)
        ++ py "</a></b>")
  ++ py "<ul style='margin: 2px 0 8px 0; padding-left: 16px;'>"
  ++ flat_map title_item (firstn 5 (snd item))
  ++ (if (5 <? length (snd item))%nat
      then py "<li><i>...+" ++ str_of_nat (length (snd item) - 5)
           ++ py " more</i></li>"
      else [])
  ++ py "</ul>".

(** and the closing note on [n] further artists, absent when [n] is 0. *)
Definition artists_note (n : nat) : pystr :=
  match n with
  | O => []
  | S _ => py "<p><i>...and " ++ str_of_nat n ++ py " more artists</i></p>"
  end.

(** The titles a block shows. *)
Definition titles_shown (item : pystr * list (pystr * pystr)) : nat :=
  Nat.min 5 (length (snd item)).

Definition shown_total (items : Dict) : nat :=
  list_sum (map titles_shown items).

(** The painters a popup lists, of [items] in their order: up to and with
    the first one at which fifteen titles are shown, [total_shown] being
    shown already. *)
Fixpoint listed (items : Dict) (total_shown : nat) : Dict :=
  match items with
  | [] => []
  | item :: items' =>
      item :: (if (15 <=? total_shown + titles_shown item)%nat then []
               else listed items' (total_shown + titles_shown item))
  end.

(** The note after the painters [items], the last of which brought the
    titles shown to [total_shown]: the dict's length less the place of
    that painter among the keys of the dict, less one. *)
Definition popup_note (d : Dict) (items : Dict) (total_shown : nat) : pystr :=
  match last items with
  | Some item =>
      if (15 <=? total_shown)%nat
      then artists_note (length d - index_of (fst item) (map fst d) - 1)
      else []
  | None => []
  end.

(** Names in ascending order, none twice. *)
Definition ascending (keys : list pystr) : Prop :=
  StronglySorted (fun a b => str_lt a b = true) keys.

(** Four painters with five paintings each, put into the dict in the
    order of their names, and with the last one first. *)
Definition five_paintings : list (pystr * pystr) := repeat (py "Untitled", []) 5.

Definition painters_in_order : Dict :=
  [(py "Arp", five_paintings); (py "Braque", five_paintings);
   (py "Corot", five_paintings); (py "Degas", five_paintings)].

Definition painters_out_of_order : Dict :=
  [(py "Degas", five_paintings); (py "Arp", five_paintings);
   (py "Braque", five_paintings); (py "Corot", five_paintings)].

(** * Properties *)

(** ** Text *)

Example is_qid_Q42 : _is_qid (py "Q42") = true.
Proof. reflexivity. Qed.
Example is_qid_hyphen : _is_qid (py "Q-") = false.
Proof. reflexivity. Qed.
Example parse_paris :
  _parse_coordinates (Some (py "Point(2.35 48.85)")) = (Some (977 # 20), Some (47 # 20))%Q.
Proof. reflexivity. Qed.
Example parse_trailing :
  _parse_coordinates (Some (py "Point(1 -2.)xyz")) = (Some (-2 # 1), Some (1 # 1))%Q.
Proof. reflexivity. Qed.
Example parse_bad_number :
  _parse_coordinates (Some (py "Point(1.2.3 4)")) = (None, None).
Proof. reflexivity. Qed.

(** ** The executor *)

Lemma sleeps_app t1 t2 : sleeps (t1 ++ t2) = sleeps t1 ++ sleeps t2.
Proof.
  induction t1 as [|[q|d] t1 IH]; simpl; [reflexivity|assumption|].
  now rewrite IH.
Qed.

Lemma posts_app t1 t2 : posts (t1 ++ t2) = posts t1 ++ posts t2.
Proof.
  induction t1 as [|[q|d] t1 IH]; simpl; [reflexivity| |assumption].
  now rewrite IH.
Qed.

Section ExecutorFacts.
Variable net : nat -> Query -> PostOutcome.
Variable q : Query.

Lemma attempt_retry retries w d :
  retry_sleep (net (clock w) q) retries = Some d ->
  attempt net q retries w
  = Some (Returned (Continue (retries + 1)), slept d (posted q w)).
Proof.
  unfold retry_sleep, attempt, try_except, bind, post, raise_for_status,
    json_bindings.
  destruct (net (clock w) q) as [e|r]; simpl.
  - destruct e; simpl; intros [= <-]; reflexivity.
  - destruct (status_code r =? 429); [intros [= <-]; reflexivity|].
    destruct (status_in [500; 502; 503; 504] r); [intros [= <-]; reflexivity|].
    destruct ((400 <=? status_code r) && (status_code r <? 600)); simpl;
      [intros [= <-]; reflexivity|].
    destruct (body r) as [rows|e]; simpl; [discriminate|].
    destruct e; simpl; intros [= <-]; reflexivity.
Qed.

Lemma attempt_last retries w :
  retry_sleep (net (clock w) q) retries = None ->
  attempt net q retries w
  = Some (match last_result (net (clock w) q) with
          | Returned rows => Returned (Return rows)
          | Raised e => Raised e
          end, posted q w).
Proof.
  unfold retry_sleep, last_result, attempt, try_except, bind, post,
    raise_for_status, json_bindings.
  destruct (net (clock w) q) as [e|r]; simpl.
  - destruct e; simpl; try discriminate; reflexivity.
  - destruct (status_code r =? 429); [discriminate|].
    destruct (status_in [500; 502; 503; 504] r); [discriminate|].
    destruct ((400 <=? status_code r) && (status_code r <? 600)); simpl;
      [discriminate|].
    destruct (body r) as [rows|e]; simpl; [reflexivity|].
    destruct e; simpl; try discriminate; reflexivity.
Qed.

Lemma last_result_not_caught retries out e :
  retry_sleep out retries = None -> last_result out = Raised e ->
  is_RequestException e = false.
Proof.
  unfold retry_sleep, last_result. destruct out as [e'|r].
  - destruct (is_RequestException e') eqn:E; [discriminate|].
    now intros _ [= <-].
  - destruct (status_code r =? 429); [discriminate|].
    destruct (status_in [500; 502; 503; 504] r); [discriminate|].
    destruct ((400 <=? status_code r) && (status_code r <? 600)); [discriminate|].
    destruct (body r) as [rows|e']; [discriminate|].
    destruct (is_RequestException e') eqn:E; [discriminate|].
    now intros _ [= <-].
Qed.

Lemma execute_loop_step fuel max_retries retries w :
  execute_loop net (S fuel) q max_retries retries w =
  if retries <? max_retries then
    match retry_sleep (net (clock w) q) retries with
    | Some d => execute_loop net fuel q max_retries (retries + 1)
                  (slept d (posted q w))
    | None => Some (last_result (net (clock w) q), posted q w)
    end
  else Some (Raised (RequestException max_retries), w).
Proof.
  simpl. destruct (retries <? max_retries); [|reflexivity].
  unfold bind at 1.
  destruct (retry_sleep (net (clock w) q) retries) as [d|] eqn:E.
  - now rewrite (attempt_retry _ _ _ E).
  - rewrite (attempt_last _ _ E).
    now destruct (last_result (net (clock w) q)).
Qed.
End ExecutorFacts.

Section ExecutorRuns.
Variable net : nat -> Query -> PostOutcome.
Variable q : Query.
Variable max_retries : Z.

(** The loop ends on its own: fuel above the remaining budget is never
    used up.  Every pass sends one request, and the sleeps of the run are
    the ones [retry_sleep] gives pass by pass. *)
Lemma execute_loop_run fuel : forall retries w,
  (Z.to_nat (max_retries - retries) < fuel)%nat ->
  exists r w' ds,
    execute_loop net fuel q max_retries retries w = Some (r, w')
    /\ (clock w <= clock w' <= clock w + Z.to_nat (max_retries - retries))%nat
    /\ sleeps (trace w') = sleeps (trace w) ++ ds
    /\ forall i, (clock w + i < clock w')%nat ->
         nth_error ds i
         = retry_sleep (net (clock w + i)%nat q) (retries + Z.of_nat i).
Proof.
  induction fuel as [|fuel IH]; intros retries w Hfuel; [lia|].
  rewrite execute_loop_step.
  destruct (retries <? max_retries) eqn:Hlt.
  - apply Z.ltb_lt in Hlt.
    destruct (retry_sleep (net (clock w) q) retries) as [d|] eqn:E.
    + destruct (IH (retries + 1) (slept d (posted q w))) as (r & w' & ds & Hrun & Hclk & Hsl & Hnth);
        [lia|].
      exists r, w', (d :: ds). simpl in Hclk. split; [exact Hrun|].
      split; [lia|]. split.
      * rewrite Hsl. simpl. rewrite !sleeps_app. simpl.
        now rewrite app_nil_r, <- app_assoc.
      * intros [|i] Hi.
        -- simpl. now rewrite Nat.add_0_r, Z.add_0_r, E.
        -- simpl. rewrite (Hnth i) by (simpl; lia). simpl.
           f_equal; [f_equal; lia | lia].
    + exists (last_result (net (clock w) q)), (posted q w), [].
      split; [reflexivity|]. simpl. split; [lia|].
      split; [now rewrite sleeps_app, !app_nil_r|].
      intros i Hi. assert (i = 0%nat) as -> by lia.
      now rewrite Nat.add_0_r, Z.add_0_r, E.
  - exists (Raised (RequestException max_retries)), w, [].
    split; [reflexivity|]. split; [lia|]. split; [now rewrite app_nil_r|].
    intros i Hi. lia.
Qed.

(** When every pass goes round again, the budget is spent to the last
    request and the final [raise] is reached. *)
Lemma execute_loop_exhausted fuel : forall retries w,
  (Z.to_nat (max_retries - retries) < fuel)%nat ->
  (forall i, (i < Z.to_nat (max_retries - retries))%nat ->
     retry_sleep (net (clock w + i)%nat q) (retries + Z.of_nat i) <> None) ->
  exists w',
    execute_loop net fuel q max_retries retries w
    = Some (Raised (RequestException max_retries), w')
    /\ clock w' = (clock w + Z.to_nat (max_retries - retries))%nat.
Proof.
  induction fuel as [|fuel IH]; intros retries w Hfuel Hall; [lia|].
  rewrite execute_loop_step.
  destruct (retries <? max_retries) eqn:Hlt.
  - apply Z.ltb_lt in Hlt.
    destruct (retry_sleep (net (clock w) q) retries) as [d|] eqn:E.
    + destruct (IH (retries + 1) (slept d (posted q w))) as (w' & Hrun & Hclk);
        [lia| |].
      * intros i Hi. simpl.
        replace (S (clock w + i))%nat with (clock w + S i)%nat by lia.
        replace (retries + 1 + Z.of_nat i) with (retries + Z.of_nat (S i)) by lia.
        apply Hall. lia.
      * exists w'. split; [exact Hrun|]. simpl in Hclk. lia.
    + exfalso. apply (Hall 0%nat); [lia|].
      now rewrite Nat.add_0_r, Z.add_0_r.
  - apply Z.ltb_ge in Hlt. exists w. split; [reflexivity|].
    replace (Z.to_nat (max_retries - retries)) with 0%nat by lia. lia.
Qed.

(** How a run can end: with the rows of the last response, with the final
    [raise] once the whole budget is spent, or with an exception of the
    last request that no handler of the loop catches. *)
Lemma execute_loop_result fuel : forall retries w r w',
  execute_loop net fuel q max_retries retries w = Some (r, w') ->
  match r with
  | Returned rows =>
      (clock w < clock w')%nat
      /\ last_result (net (clock w' - 1)%nat q) = Returned rows
  | Raised e =>
      if is_RequestException e then
        e = RequestException max_retries
        /\ clock w' = (clock w + Z.to_nat (max_retries - retries))%nat
      else
        (clock w < clock w')%nat
        /\ last_result (net (clock w' - 1)%nat q) = Raised e
  end.
Proof.
  induction fuel as [|fuel IH]; intros retries w r w'; [discriminate|].
  rewrite execute_loop_step.
  destruct (retries <? max_retries) eqn:Hlt.
  - apply Z.ltb_lt in Hlt.
    destruct (retry_sleep (net (clock w) q) retries) as [d|] eqn:E.
    + intros Hrun. specialize (IH _ _ _ _ Hrun). simpl in IH.
      destruct r as [rows|e].
      * split; [lia|tauto].
      * destruct (is_RequestException e); [split; [tauto|lia]|].
        split; [lia|tauto].
    + intros [= <- <-]. simpl. rewrite Nat.sub_0_r.
      destruct (last_result (net (clock w) q)) as [rows|e] eqn:El.
      * split; [lia|reflexivity].
      * rewrite (last_result_not_caught _ _ _ E El). split; [lia|reflexivity].
  - apply Z.ltb_ge in Hlt. intros [= <- <-]. simpl.
    split; [reflexivity|].
    replace (Z.to_nat (max_retries - retries)) with 0%nat by lia. lia.
Qed.
(** A run that ends with rows, or with an exception no handler catches,
    ends on a request that was not retried. *)
Lemma execute_loop_last_not_retried fuel : forall retries w r w',
  execute_loop net fuel q max_retries retries w = Some (r, w') ->
  match r with
  | Returned _ => True
  | Raised e => is_RequestException e = false
  end ->
  exists k, retry_sleep (net (clock w' - 1)%nat q) k = None.
Proof.
  induction fuel as [|fuel IH]; intros retries w r w'; [discriminate|].
  rewrite execute_loop_step.
  destruct (retries <? max_retries).
  - destruct (retry_sleep (net (clock w) q) retries) as [d|] eqn:E.
    + apply IH.
    + intros [= <- <-] _. simpl. rewrite Nat.sub_0_r. now exists retries.
  - intros [= <- <-]. discriminate.
Qed.

(** Fuel is no part of the result: a run that ended ends the same way
    with more. *)
Lemma execute_loop_fuel fuel : forall fuel' retries w res,
  (fuel <= fuel')%nat ->
  execute_loop net fuel q max_retries retries w = Some res ->
  execute_loop net fuel' q max_retries retries w = Some res.
Proof.
  induction fuel as [|fuel IH]; intros fuel' retries w res Hle; [discriminate|].
  destruct fuel' as [|fuel']; [lia|]. rewrite !execute_loop_step.
  destruct (retries <? max_retries); [|auto].
  destruct (retry_sleep (net (clock w) q) retries); [|auto].
  apply IH. lia.
Qed.
End ExecutorRuns.

Lemma retryable_retry_sleep out retries :
  retryable out = true -> retry_sleep out retries <> None.
Proof.
  unfold retryable, retry_sleep, is_rate_limited, is_server_error, is_timeout,
    is_connection_error.
  destruct out as [e|r].
  - destruct e; simpl; discriminate.
  - rewrite !orb_false_r.
    destruct (status_code r =? 429); [discriminate|].
    destruct (status_in [500; 502; 503; 504] r); discriminate.
Qed.

(** C1, on the code: a 404 is not final.  [raise_for_status] raises an
    [HTTPError], a [RequestException], inside the [try]; the handler for
    [RequestException] catches it, sleeps and lets the loop go on.  Against
    an endpoint that always answers 404 the executor sends five requests,
    sleeps 30, 60, 90, 120 and 150 seconds, and only then raises. *)
Theorem execute_sparql_404_is_retried (q : Query) :
  _execute_sparql net_404 q MAX_RETRIES w0
  = Some (Raised (RequestException 5),
          {| clock := 5;
             trace := [EvPost q; EvSleep 30; EvPost q; EvSleep 60;
                       EvPost q; EvSleep 90; EvPost q; EvSleep 120;
                       EvPost q; EvSleep 150] |}).
Proof. reflexivity. Qed.

Lemma success_last_result out :
  is_success out = true -> exists rows, last_result out = Returned rows.
Proof.
  unfold is_success, last_result. destruct out as [e|r]; [discriminate|].
  destruct (body r) as [rows|e]; [eauto|].
  rewrite andb_false_r. discriminate.
Qed.

(** C7: whatever the endpoint answers, the executor ends, after at most
    five requests.  When the first five outcomes are all retryable (429,
    500/502/503/504, timeout, connection error) it raises the final
    [RequestException], which carries 5, after exactly five requests.
    When each of them is retryable or a good answer, it returns rows or
    raises that final exception, nothing else.  In general it ends in one
    of three ways: with the rows of the last response; with the final
    [RequestException 5], after exactly five requests; or with an
    exception of the last request that no handler of the loop catches. *)
Theorem execute_sparql_budget (net : nat -> Query -> PostOutcome) (q : Query)
    (w : World) :
  exists r w',
    _execute_sparql net q MAX_RETRIES w = Some (r, w')
    /\ (clock w' <= clock w + 5)%nat
    /\ ((forall i, (i < 5)%nat -> retryable (net (clock w + i)%nat q) = true) ->
        r = Raised (RequestException 5) /\ clock w' = (clock w + 5)%nat)
    /\ ((forall i, (i < 5)%nat ->
           retryable (net (clock w + i)%nat q) || is_success (net (clock w + i)%nat q)
           = true) ->
        (exists rows, r = Returned rows) \/ r = Raised (RequestException 5))
    /\ match r with
       | Returned rows =>
           (clock w < clock w')%nat
           /\ last_result (net (clock w' - 1)%nat q) = Returned rows
       | Raised e =>
           if is_RequestException e then
             e = RequestException 5 /\ clock w' = (clock w + 5)%nat
           else
             (clock w < clock w')%nat
             /\ last_result (net (clock w' - 1)%nat q) = Raised e
       end.
Proof.
  unfold _execute_sparql.
  destruct (execute_loop_run net q MAX_RETRIES (S (Z.to_nat MAX_RETRIES)) 0 w)
    as (r & w' & ds & Hrun & Hclk & _); [vm_compute; lia|].
  change (Z.to_nat (MAX_RETRIES - 0)) with 5%nat in Hclk.
  pose proof (execute_loop_result net q MAX_RETRIES _ _ _ _ _ Hrun) as Hres.
  change (Z.to_nat (MAX_RETRIES - 0)) with 5%nat in Hres.
  exists r, w'. split; [exact Hrun|]. split; [lia|]. split; [|split].
  - intros Hall.
    destruct (execute_loop_exhausted net q MAX_RETRIES (S (Z.to_nat MAX_RETRIES)) 0 w)
      as (w'' & Hrun' & Hclk'); [vm_compute; lia| |].
    + intros i Hi. apply retryable_retry_sleep, Hall.
      change (Z.to_nat (MAX_RETRIES - 0)) with 5%nat in Hi. lia.
    + rewrite Hrun in Hrun'. injection Hrun' as -> ->. split; [reflexivity|].
      exact Hclk'.
  - intros Hall. destruct r as [rows|e]; [left; eauto|]. right.
    destruct (is_RequestException e) eqn:Ee; [now destruct Hres as [-> _]|].
    exfalso. destruct Hres as [Hlt Hlast].
    destruct (execute_loop_last_not_retried net q MAX_RETRIES _ _ _ _ _ Hrun Ee)
      as (k & Hk).
    specialize (Hall (clock w' - 1 - clock w)%nat ltac:(lia)).
    replace (clock w + (clock w' - 1 - clock w))%nat with (clock w' - 1)%nat
      in Hall by lia.
    apply orb_true_iff in Hall as [Hr|Hs].
    + now apply (retryable_retry_sleep _ k) in Hr.
    + apply success_last_result in Hs as (rows & Hs). congruence.
  - destruct r as [rows|e]; [exact Hres|].
    destruct (is_RequestException e); exact Hres.
Qed.

(** Five server errors in a row: the budget is spent. *)
Lemma execute_sparql_budget_witness :
  exists r w',
    _execute_sparql net_503 (notable_query 0) MAX_RETRIES w0 = Some (r, w')
    /\ r = Raised (RequestException 5) /\ clock w' = 5%nat.
Proof.
  destruct (execute_sparql_budget net_503 (notable_query 0) w0)
    as (r & w' & Hrun & _ & Hall & _).
  exists r, w'. split; [exact Hrun|]. apply Hall. intros i _. reflexivity.
Defined.

(** C8, as stated, fails: after one 429 the first server error sleeps
    30 x 2 = 60 seconds, not 30 x 1; the 429 did raise the multiplier. *)
Lemma backoff_counts_rate_limits :
  (exists w', _execute_sparql net_429_503 (notable_query 0) MAX_RETRIES w0
              = Some (Returned [], w')
              /\ sleeps (trace w') = [30; 60])
  /\ spec_sleeps 0 outs_429_503 = [30; 30].
Proof. split; [eexists; split; reflexivity | reflexivity]. Qed.

(** C8, amended: a 429 sleeps exactly 30 seconds; a server error
    (500/502/503/504) or a timeout at the i-th request of the call (from
    1) sleeps 30 x i seconds, every earlier request counted whatever its
    kind, a 429 too.  Server errors from the first request on therefore
    sleep 30, 60, 90, ... seconds. *)
Theorem execute_sparql_sleeps (net : nat -> Query -> PostOutcome) (q : Query)
    (w : World) :
  exists r w' ds,
    _execute_sparql net q MAX_RETRIES w = Some (r, w')
    /\ sleeps (trace w') = sleeps (trace w) ++ ds
    /\ forall i, (clock w + i < clock w')%nat ->
         let out := net (clock w + i)%nat q in
         (is_rate_limited out = true -> nth_error ds i = Some 30)
         /\ (is_server_error out || is_timeout out = true ->
             nth_error ds i = Some (30 * (Z.of_nat i + 1))).
Proof.
  unfold _execute_sparql.
  destruct (execute_loop_run net q MAX_RETRIES (S (Z.to_nat MAX_RETRIES)) 0 w)
    as (r & w' & ds & Hrun & Hclk & Hsl & Hnth); [vm_compute; lia|].
  exists r, w', ds. split; [exact Hrun|]. split; [exact Hsl|].
  intros i Hi. cbv zeta. rewrite (Hnth i Hi).
  unfold retry_sleep, is_rate_limited, is_server_error, is_timeout.
  destruct (net (clock w + i)%nat q) as [e|resp]; simpl.
  - split; [discriminate|]. destruct e; simpl; try discriminate; reflexivity.
  - destruct (status_code resp =? 429) eqn:E429.
    + split; [reflexivity|]. rewrite orb_false_r. intros Hs.
      unfold status_in in Hs. simpl in Hs. apply Z.eqb_eq in E429.
      rewrite E429 in Hs. discriminate.
    + split; [discriminate|]. rewrite orb_false_r. now intros ->.
Qed.

Example three_503_then_200 :
  exists w', _execute_sparql net_503x3 (notable_query 0) MAX_RETRIES w0
             = Some (Returned [], w')
             /\ sleeps (trace w') = [30; 60; 90] /\ clock w' = 4%nat.
Proof. eexists; repeat split; reflexivity. Qed.

(** ** The normaliser *)

Lemma strip_prefix_Some prefix : forall s r,
  strip_prefix prefix s = Some r <-> s = prefix ++ r.
Proof.
  induction prefix as [|p prefix IH]; intros s r; simpl.
  - split; [now intros [= ->] | now intros ->].
  - destruct s as [|c s]; [split; discriminate|].
    destruct (N.eqb_spec p c) as [->|Hne].
    + rewrite IH. split; [now intros -> | now intros [= ->]].
    + split; [discriminate | intros [= -> _]; congruence].
Qed.

Lemma span_sound p : forall s a b,
  span p s = (a, b) ->
  s = a ++ b /\ Forall (fun c => p c = true) a
  /\ match b with c :: _ => p c = false | [] => True end.
Proof.
  induction s as [|c s IH]; intros a b; simpl.
  - intros [= <- <-]. repeat split. constructor.
  - destruct (p c) eqn:Hc.
    + destruct (span p s) as [a' b'] eqn:Hs. intros [= <- <-].
      destruct (IH a' b' eq_refl) as (-> & Hall & Hb).
      repeat split; [now constructor | exact Hb].
    + intros [= <- <-]. repeat split; [constructor | exact Hc].
Qed.

Lemma span_complete p : forall a b,
  Forall (fun c => p c = true) a ->
  match b with c :: _ => p c = false | [] => True end ->
  span p (a ++ b) = (a, b).
Proof.
  induction a as [|c a IH]; intros b Ha Hb; simpl.
  - destruct b as [|c b]; [reflexivity|]. simpl. now rewrite Hb.
  - inversion Ha as [|? ? Hc Ha']; subst. rewrite Hc.
    now rewrite (IH b Ha' Hb).
Qed.

Section TextFacts.
Context `{UnicodeData}.

Lemma isdigit_hyphen : ch_isdigit HYPHEN = false.
Proof. now rewrite ch_isdigit_ascii. Qed.

Lemma tok_char_space c : ch_isspace c = true -> tok_char c = false.
Proof.
  intros Hs. unfold tok_char. rewrite (ch_space_not_decimal c Hs).
  destruct (N.eqb_spec c HYPHEN) as [->|_];
    [now rewrite ch_isspace_ascii in Hs|].
  destruct (N.eqb_spec c DOT) as [->|_];
    [now rewrite ch_isspace_ascii in Hs|].
  reflexivity.
Qed.

Lemma space_tok_char c : tok_char c = true -> ch_isspace c = false.
Proof.
  intros Ht. destruct (ch_isspace c) eqn:Hs; [|reflexivity].
  now rewrite (tok_char_space c Hs) in Ht.
Qed.

Lemma tok_char_rparen : tok_char RPAREN = false.
Proof. unfold tok_char. now rewrite ch_isdecimal_ascii. Qed.

Lemma isdigit_without_hyphens t :
  isdigit (replace_char_empty HYPHEN t) = true
  <-> Forall (fun c => ch_isdigit c = true \/ c = HYPHEN) t
      /\ Exists (fun c => ch_isdigit c = true) t.
Proof.
  unfold isdigit, replace_char_empty. rewrite andb_true_iff.
  induction t as [|c t IH]; simpl.
  - split; [intros [? _]; discriminate | intros [_ Hex]; inversion Hex].
  - destruct (N.eqb_spec c HYPHEN) as [->|Hne]; simpl.
    + rewrite IH. split.
      * intros [Hall Hex]. split; [constructor; auto | now constructor 2].
      * intros [Hall Hex]. inversion Hall; subst. split; [assumption|].
        inversion Hex as [? ? Hd|]; subst; [|assumption].
        now rewrite isdigit_hyphen in Hd.
    + rewrite andb_true_iff. split.
      * intros [_ [Hc Hall]]. split; [|now constructor].
        constructor; [now left|]. clear IH.
        induction t as [|c' t IH']; [constructor|]. simpl in Hall.
        destruct (N.eqb_spec c' HYPHEN) as [->|_]; simpl in Hall.
        -- constructor; auto.
        -- apply andb_true_iff in Hall as [Hc' Hall].
           constructor; auto.
      * intros [Hall _]. inversion Hall as [|? ? [Hc|Hc] Hall']; subst;
          [|contradiction].
        split; [reflexivity|]. split; [assumption|]. clear IH Hall.
        induction t as [|c' t IH']; [reflexivity|]. simpl.
        inversion Hall' as [|? ? Hc' Hall'']; subst.
        destruct (N.eqb_spec c' HYPHEN) as [->|Hne']; simpl; [auto|].
        destruct Hc' as [Hc'|Hc']; [|contradiction].
        rewrite Hc'. auto.
Qed.

Lemma is_qid_spec label :
  _is_qid label = true <-> label = [] \/ placeholder label.
Proof.
  unfold placeholder. destruct label as [|c t].
  - split; [now left | reflexivity].
  - change (_is_qid (c :: t))
      with (match (if (81 =? c)%N then Some t else None) with
            | Some _ => true
            | None => false
            end && isdigit (replace_char_empty HYPHEN t)).
    destruct (N.eqb_spec 81 c) as [<-|Hne].
    + rewrite andb_true_l, isdigit_without_hyphens. split.
      * intros Hd. right. exists t. split; [reflexivity | exact Hd].
      * intros [|(t' & [= <-] & Hd)]; [discriminate | exact Hd].
    + split; [discriminate|].
      intros [|(t' & [= -> _] & _)]; [discriminate|].
      now contradiction Hne.
Qed.

Lemma match_point_spec s g1 g2 :
  match_point s = Some (g1, g2) <-> point_prefix s g1 g2.
Proof.
  unfold match_point, point_prefix. split.
  - destruct (strip_prefix (py "Point(") s) as [s1|] eqn:Hp; [|discriminate].
    apply strip_prefix_Some in Hp.
    destruct (span tok_char s1) as [a s2] eqn:H1.
    destruct (span ch_isspace s2) as [ws s3] eqn:H2.
    destruct (span tok_char s3) as [b s4] eqn:H3.
    apply span_sound in H1 as (-> & Ha & _).
    apply span_sound in H2 as (-> & Hws & _).
    apply span_sound in H3 as (-> & Hb & _).
    destruct s4 as [|c rest]; [discriminate|].
    destruct a as [|a0 a]; [discriminate|].
    destruct ws as [|w1 ws]; [discriminate|].
    destruct b as [|b0 b]; [discriminate|]. simpl.
    destruct (N.eqb_spec c RPAREN) as [->|_]; [|discriminate].
    intros [= <- <-]. exists (w1 :: ws), rest.
    repeat split; try assumption; discriminate.
  - intros (ws & rest & -> & Hg1 & Ha & Hws & Hsp & Hg2 & Hb).
    rewrite (proj2 (strip_prefix_Some _ _ _) eq_refl).
    destruct ws as [|w1 ws]; [contradiction|].
    destruct g2 as [|b0 g2]; [contradiction|].
    destruct g1 as [|a0 g1]; [contradiction|].
    rewrite (span_complete tok_char (a0 :: g1)); [|assumption|].
    2:{ simpl. inversion Hsp; subst. now apply tok_char_space. }
    rewrite (span_complete ch_isspace (w1 :: ws)); [|assumption|].
    2:{ simpl. inversion Hb; subst. now apply space_tok_char. }
    rewrite (span_complete tok_char (b0 :: g2)); [|assumption|].
    2:{ exact tok_char_rparen. }
    reflexivity.
Qed.
Lemma isdecimal_dot : ch_isdecimal DOT = false.
Proof. now rewrite ch_isdecimal_ascii. Qed.

Lemma isdecimal_hyphen : ch_isdecimal HYPHEN = false.
Proof. now rewrite ch_isdecimal_ascii. Qed.

(** [float] reads exactly the decimal numbers, and gives their value. *)
Lemma float_of_digits_spec neg body v :
  float_of_digits neg body = Some v
  <-> exists ip fp, decimal_digits body ip fp /\ v = decimal_number neg ip fp.
Proof.
  unfold float_of_digits, decimal_digits. split.
  - destruct (span ch_isdecimal body) as [ip r1] eqn:H1.
    apply span_sound in H1 as (-> & Hip & _).
    destruct r1 as [|c r2].
    + rewrite andb_true_r. destruct ip as [|d ip]; [discriminate|].
      intros [= <-]. exists (d :: ip), []. rewrite app_nil_r.
      split; [|reflexivity]. split; [exact Hip|]. split; [constructor|].
      split; [left; discriminate | now left].
    + destruct (N.eqb_spec c DOT) as [->|_]; [|discriminate].
      destruct (span ch_isdecimal r2) as [fp r3] eqn:H2.
      apply span_sound in H2 as (-> & Hfp & _).
      destruct r3 as [|? ?]; [|discriminate]. rewrite app_nil_r.
      destruct (is_nil ip && is_nil fp) eqn:E; [discriminate|].
      intros [= <-]. exists ip, fp.
      split; [|reflexivity]. split; [exact Hip|]. split; [exact Hfp|].
      split; [|now right].
      destruct ip; [destruct fp; [discriminate|right; discriminate]
                   | left; discriminate].
  - intros (ip & fp & (Hip & Hfp & Hne & [[-> ->] | ->]) & ->).
    + rewrite <- (app_nil_r ip) at 1.
      rewrite (span_complete ch_isdecimal ip [] Hip I).
      destruct ip as [|d ip]; [destruct Hne; contradiction | reflexivity].
    + rewrite (span_complete ch_isdecimal ip (DOT :: fp) Hip isdecimal_dot).
      rewrite N.eqb_refl. rewrite <- (app_nil_r fp) at 1.
      rewrite (span_complete ch_isdecimal fp [] Hfp I).
      destruct ip as [|d ip]; [|reflexivity].
      destruct fp as [|d fp]; [destruct Hne; contradiction | reflexivity].
Qed.

Lemma float_of_token_spec tok v :
  float_of_token tok = Some v
  <-> exists (neg : bool) body ip fp,
        tok = (if neg then [HYPHEN] else []) ++ body
        /\ decimal_digits body ip fp /\ v = decimal_number neg ip fp.
Proof.
  split.
  - unfold float_of_token. destruct tok as [|c r].
    + intros Hf. apply float_of_digits_spec in Hf as (ip & fp & Hd & ->).
      now exists false, [], ip, fp.
    + destruct (N.eqb_spec c HYPHEN) as [->|_]; intros Hf;
        apply float_of_digits_spec in Hf as (ip & fp & Hd & ->).
      * now exists true, r, ip, fp.
      * now exists false, (c :: r), ip, fp.
  - intros (neg & body & ip & fp & -> & Hd & ->).
    assert (float_of_digits neg body = Some (decimal_number neg ip fp)) as Hf.
    { apply float_of_digits_spec. now exists ip, fp. }
    destruct neg; [exact Hf|]. change ([] ++ body) with body.
    unfold float_of_token. destruct body as [|c r]; [exact Hf|].
    destruct (N.eqb_spec c HYPHEN) as [->|_]; [|exact Hf].
    exfalso. destruct Hd as (Hip & Hfp & _ & [[E _]|E]).
    + rewrite <- E in Hip. inversion Hip as [|? ? Hc _]; subst.
      now rewrite isdecimal_hyphen in Hc.
    + destruct ip as [|d ip]; [discriminate|].
      injection E as <- _. inversion Hip as [|? ? Hc _]; subst.
      now rewrite isdecimal_hyphen in Hc.
Qed.
End TextFacts.

(** C4, as stated, fails: the label "Q-" matches [^Q[0-9-]+$], yet
    [_is_qid] is false for it (with the hyphens gone nothing is left, and
    [isdigit] of the empty string is false), so the row is kept. *)
Lemma hyphen_only_label_is_kept :
  spec_rejects row_q_hyphen = true
  /\ row_record row_q_hyphen
     = Some {| painter := py "Q-"; painting := py "Mona Lisa";
               museum := py "Louvre"; city := py "Unknown";
               country := py "Unknown"; lat := None; lon := None;
               wikipedia_url := py "" |}.
Proof. split; vm_compute; reflexivity. Qed.

(** The same holds whatever the Unicode tables say beyond ASCII. *)
Lemma is_qid_hyphen_only `{UnicodeData} : _is_qid (py "Q-") = false.
Proof. reflexivity. Qed.

(** C4, amended: a row is rejected if and only if one of the painter,
    painting and museum labels is empty or is the letter Q followed by
    digits and hyphens only with at least one digit among them ("Q-" is
    not such a label; a digit is what [str.isdigit] accepts).  Every other
    row is kept. *)
Theorem row_record_rejects `{UnicodeData} (row : Row) :
  row_record row = None
  <-> exists var, In var LABELS
        /\ (get_value_or row var (py "") = [] \/
            placeholder (get_value_or row var (py ""))).
Proof.
  unfold row_record.
  destruct (_is_qid (get_value_or row "painterLabel" (py ""))
            || _is_qid (get_value_or row "paintingLabel" (py ""))
            || _is_qid (get_value_or row "museumLabel" (py ""))) eqn:E.
  - split; [intros _|reflexivity].
    apply orb_true_iff in E as [E|E]; [apply orb_true_iff in E as [E|E]|];
      apply is_qid_spec in E;
      [exists "painterLabel"%string | exists "paintingLabel"%string
       | exists "museumLabel"%string];
      (split; [simpl; tauto | exact E]).
  - destruct (_parse_coordinates (get_value row "coords")) as [la lo].
    split; [discriminate|]. intros (var & Hin & Hbad).
    apply is_qid_spec in Hbad.
    apply orb_false_iff in E as [E E3]. apply orb_false_iff in E as [E1 E2].
    destruct Hin as [<-|[<-|[<-|[]]]]; congruence.
Qed.

(** C5, amended: for a text that starts with [Point(<lon> <lat>)], both
    tokens numbers, parsing gives [(lat, lon)], the two numbers swapped
    from their order in the text, whatever follows the closing
    parenthesis; for every other text (no such start, or a token that is
    not a number) it gives [(None, None)].  No text makes it raise: the
    function is total and the [ValueError] of [float] is the [None] of
    [float_of_token]. *)
Theorem parse_coordinates_spec `{UnicodeData} (s : pystr) :
  (forall g1 g2 lon lat,
     point_prefix s g1 g2 ->
     float_of_token g1 = Some lon -> float_of_token g2 = Some lat ->
     _parse_coordinates (Some s) = (Some lat, Some lon))
  /\ ((forall g1 g2, point_prefix s g1 g2 ->
         float_of_token g1 = None \/ float_of_token g2 = None) ->
      _parse_coordinates (Some s) = (None, None)).
Proof.
  split.
  - intros g1 g2 lo la Hp H1 H2. unfold _parse_coordinates.
    rewrite (proj2 (match_point_spec s g1 g2) Hp), H1, H2.
    destruct Hp as (ws & rest & -> & _). reflexivity.
  - intros Hnone. unfold _parse_coordinates.
    destruct (is_nil s); [reflexivity|].
    destruct (match_point s) as [[g1 g2]|] eqn:Hm; [|reflexivity].
    apply match_point_spec in Hm.
    destruct (Hnone g1 g2 Hm) as [-> | E2]; [reflexivity|].
    rewrite E2. now destruct (float_of_token g1).
Qed.

Lemma parse_coordinates_spec_witness :
  _parse_coordinates (Some (py "Point(2.35 48.85)"))
  = (Some (977 # 20), Some (47 # 20))%Q.
Proof.
  apply (proj1 (parse_coordinates_spec (py "Point(2.35 48.85)"))
           (py "2.35") (py "48.85")); [|reflexivity|reflexivity].
  exists (py " "), []. repeat split; try discriminate;
    repeat constructor.
Defined.

(** C5, as stated, fails: [re.match] anchors the pattern at the start
    only, so a text with anything after the closing parenthesis, which is
    not of the form [Point(<lon> <lat>)], still parses. *)
Lemma parse_accepts_trailing_text :
  _parse_coordinates (Some (py "Point(1 2)xyz")) = (Some (2 # 1), Some (1 # 1))%Q
  /\ ~ whole_point_text (py "Point(1 2)xyz").
Proof.
  split; [reflexivity|].
  intros (g1 & g2 & ws & Hs & _).
  apply (f_equal (@last N)) in Hs.
  rewrite !app_assoc, last_snoc in Hs. discriminate.
Qed.

(** ** Runs of the fetchers and the paginator *)

Section NormalizerFacts.
Context `{UnicodeData}.

Lemma collect_paintings_omap results : forall paintings,
  collect_paintings results paintings = paintings ++ omap row_record results.
Proof.
  induction results as [|row results IH]; intros paintings; simpl.
  - now rewrite app_nil_r.
  - destruct (row_record row) as [r|]; rewrite IH; [|reflexivity].
    now rewrite <- app_assoc.
Qed.

Lemma collect_paintings_In results r :
  In r (collect_paintings results [])
  <-> exists row, In row results /\ row_record row = Some r.
Proof.
  rewrite collect_paintings_omap. simpl.
  rewrite <- list_elem_of_In, list_elem_of_omap.
  split; intros (row & Hin & Hr); exists row;
    (split; [now apply list_elem_of_In | exact Hr]).
Qed.

(** A record keeps its coordinates as a pair. *)
Lemma row_record_coords row r :
  row_record row = Some r ->
  (lat r, lon r) = _parse_coordinates (get_value row "coords").
Proof.
  unfold row_record.
  destruct (_is_qid _ || _ || _); [discriminate|].
  destruct (_parse_coordinates (get_value row "coords")) as [la lo].
  now intros [= <-].
Qed.

Lemma parse_coordinates_cases coord_str :
  _parse_coordinates coord_str = (None, None)
  \/ exists s g1 g2 la lo,
       coord_str = Some s /\ point_prefix s g1 g2
       /\ float_of_token g1 = Some lo /\ float_of_token g2 = Some la
       /\ _parse_coordinates coord_str = (Some la, Some lo).
Proof.
  unfold _parse_coordinates. destruct coord_str as [s|]; [|now left].
  destruct (is_nil s); [now left|].
  destruct (match_point s) as [[g1 g2]|] eqn:Hm; [|now left].
  destruct (float_of_token g1) as [lo|] eqn:E1; [|now left].
  destruct (float_of_token g2) as [la|] eqn:E2; [|now left].
  right. exists s, g1, g2, la, lo. apply match_point_spec in Hm. tauto.
Qed.
End NormalizerFacts.

Section ExecutorTrace.
Variable net : nat -> Query -> PostOutcome.
Variable q : Query.
Variable max_retries : Z.

(** A run only adds to the trace, and opens with a request as long as
    the budget allows one. *)
Lemma execute_loop_trace fuel : forall retries w r w',
  execute_loop net fuel q max_retries retries w = Some (r, w') ->
  exists evs,
    trace w' = trace w ++ evs
    /\ (retries < max_retries -> exists evs', evs = EvPost q :: evs').
Proof.
  induction fuel as [|fuel IH]; intros retries w r w'; [discriminate|].
  rewrite execute_loop_step.
  destruct (retries <? max_retries) eqn:Hlt.
  - destruct (retry_sleep (net (clock w) q) retries) as [d|].
    + intros Hrun. destruct (IH _ _ _ _ Hrun) as (evs & Ht & _).
      exists (EvPost q :: EvSleep d :: evs). split; [|eauto].
      rewrite Ht. simpl. now rewrite <- !app_assoc.
    + intros [= <- <-]. exists [EvPost q]. split; [reflexivity|eauto].
  - apply Z.ltb_ge in Hlt. intros [= <- <-]. exists [].
    split; [now rewrite app_nil_r | lia].
Qed.
End ExecutorTrace.

(** Every call of the executor ends; with rows, they are rows the endpoint
    sent for this query; the first thing it does is send the query. *)
Lemma execute_sparql_total (net : nat -> Query -> PostOutcome) (q : Query)
    (w : World) :
  exists r w' evs,
    _execute_sparql net q MAX_RETRIES w = Some (r, w')
    /\ trace w' = trace w ++ EvPost q :: evs
    /\ forall results, r = Returned results ->
         exists n resp, net n q = PostReturns resp /\ body resp = Bindings results.
Proof.
  unfold _execute_sparql.
  destruct (execute_loop_run net q MAX_RETRIES (S (Z.to_nat MAX_RETRIES)) 0 w)
    as (r & w' & ds & Hrun & _); [vm_compute; lia|].
  destruct (execute_loop_trace net q MAX_RETRIES _ _ _ _ _ Hrun)
    as (evs & Ht & Hfirst).
  destruct Hfirst as (evs' & ->); [reflexivity|].
  exists r, w', evs'. split; [exact Hrun|]. split; [exact Ht|].
  intros results ->.
  pose proof (execute_loop_result net q MAX_RETRIES _ _ _ _ _ Hrun) as [_ Hlast].
  simpl in Hlast. unfold last_result in Hlast.
  destruct (net (clock w' - 1)%nat q) as [e|resp] eqn:En; [discriminate|].
  exists (clock w' - 1)%nat, resp. split; [exact En|].
  destruct (body resp); [now injection Hlast as -> | discriminate].
Qed.

Section PaginatorFacts.
Context `{UnicodeData}.
Variable net : nat -> Query -> PostOutcome.

Lemma fetch_notable_unfold offset w :
  fetch_notable_paintings_batch net offset BATCH_SIZE w =
  match _execute_sparql net (notable_query offset) MAX_RETRIES w with
  | None => None
  | Some (Raised e, w1) => Some (Raised e, w1)
  | Some (Returned results, w1) =>
      Some (Returned (collect_paintings results []), w1)
  end.
Proof. reflexivity. Qed.

Lemma fetch_museum_unfold offset w :
  fetch_museum_paintings_batch net offset BATCH_SIZE w =
  match _execute_sparql net (museum_query offset) MAX_RETRIES w with
  | None => None
  | Some (Raised e, w1) => Some (Raised e, w1)
  | Some (Returned results, w1) =>
      Some (Returned (collect_paintings results []), w1)
  end.
Proof. reflexivity. Qed.

Lemma collect_from_endpoint q w results w1 :
  _execute_sparql net q MAX_RETRIES w = Some (Returned results, w1) ->
  Forall (from_endpoint net) (collect_paintings results []).
Proof.
  intros Hrun.
  destruct (execute_sparql_total net q w) as (r & w' & evs & Hrun' & _ & Hrows).
  rewrite Hrun in Hrun'. injection Hrun' as <- <-.
  destruct (Hrows results eq_refl) as (n & resp & Hn & Hb).
  apply List.Forall_forall. intros r Hr.
  apply collect_paintings_In in Hr as (row & Hin & Hrow).
  now exists n, q, resp, results, row.
Qed.

(** One page of strategy 1, by what the batch fetcher gave. *)
Lemma notable_page_unfold offset all_rows w :
  notable_page net offset all_rows w =
  match fetch_notable_paintings_batch net offset BATCH_SIZE w with
  | None => None
  | Some (Raised e, w1) => Some (Returned (Break all_rows), w1)
  | Some (Returned batch, w1) =>
      if is_nil batch then Some (Returned (Break all_rows), w1)
      else if offset + BATCH_SIZE >=? 2000
           then Some (Returned (Break (all_rows ++ batch)), w1)
           else Some (Returned (Next (offset + BATCH_SIZE) (all_rows ++ batch)),
                      slept RATE_LIMIT_SLEEP w1)
  end.
Proof.
  unfold notable_page, try_except. unfold bind at 1.
  destruct (fetch_notable_paintings_batch net offset BATCH_SIZE w)
    as [[[batch|e] w1]|]; [|reflexivity|reflexivity].
  destruct (is_nil batch); [reflexivity|].
  destruct (offset + BATCH_SIZE >=? 2000); reflexivity.
Qed.

(** One sample of strategy 2. *)
Lemma sample_page_unfold sample_offset all_rows w :
  sample_page net sample_offset all_rows w =
  match fetch_museum_paintings_batch net sample_offset BATCH_SIZE w with
  | None => None
  | Some (Raised e, w1) => Some (Returned all_rows, w1)
  | Some (Returned batch, w1) =>
      Some (Returned (if is_nil batch then all_rows else all_rows ++ batch),
            slept RATE_LIMIT_SLEEP w1)
  end.
Proof.
  unfold sample_page, try_except. unfold bind at 1.
  now destruct (fetch_museum_paintings_batch net sample_offset BATCH_SIZE w)
    as [[[batch|e] w1]|].
Qed.

(** Strategy 1 ends within the pages its limit leaves, only adds rows
    the endpoint sent, and opens with the request for its offset. *)
Lemma notable_loop_total fuel : forall offset all_rows w,
  (0 < fuel)%nat -> 2000 - offset <= 200 * Z.of_nat fuel ->
  exists extra w' evs,
    notable_loop net fuel offset all_rows w
    = Some (Returned (all_rows ++ extra), w')
    /\ Forall (from_endpoint net) extra
    /\ trace w' = trace w ++ EvPost (notable_query offset) :: evs.
Proof.
  induction fuel as [|fuel IH]; intros offset all_rows w Hpos Hfuel; [lia|].
  simpl. unfold bind at 1. rewrite notable_page_unfold, fetch_notable_unfold.
  destruct (execute_sparql_total net (notable_query offset) w)
    as (r & w1 & evs & Hrun & Ht & _).
  rewrite Hrun. destruct r as [results|e].
  - pose proof (collect_from_endpoint _ _ _ _ Hrun) as Hfrom.
    destruct (is_nil (collect_paintings results [])) eqn:Hnil.
    + exists [], w1, evs. rewrite app_nil_r. repeat split; [constructor|exact Ht].
    + unfold BATCH_SIZE at 1 2. destruct (offset + 200 >=? 2000) eqn:Hcap.
      * exists (collect_paintings results []), w1, evs. repeat split; assumption.
      * assert (offset + 200 < 2000) as Hlt.
        { unfold Z.geb in Hcap. destruct (offset + 200 ?= 2000) eqn:Hc;
            try discriminate. now apply Z.compare_lt_iff. }
        destruct (IH (offset + 200) (all_rows ++ collect_paintings results [])
                    (slept RATE_LIMIT_SLEEP w1)) as (extra & w' & evs' & Hloop & Hex & Ht');
          [lia|lia|].
        exists (collect_paintings results [] ++ extra), w',
          (evs ++ EvSleep RATE_LIMIT_SLEEP :: EvPost (notable_query (offset + 200)) :: evs').
        split; [rewrite Hloop; now rewrite <- app_assoc|].
        split; [now apply Forall_app|].
        rewrite Ht'. simpl. rewrite Ht. now rewrite <- !app_assoc.
  - exists [], w1, evs. rewrite app_nil_r. repeat split; [constructor|exact Ht].
Qed.

(** Strategy 2 takes every sample, whatever the batches, and only adds
    rows the endpoint sent. *)
Lemma sample_loop_total offsets : forall all_rows w,
  exists extra w' evs,
    sample_loop net offsets all_rows w = Some (Returned (all_rows ++ extra), w')
    /\ Forall (from_endpoint net) extra
    /\ trace w' = trace w ++ evs
    /\ forall o, In o offsets -> In (EvPost (museum_query o)) evs.
Proof.
  induction offsets as [|o offsets IH]; intros all_rows w; simpl.
  - exists [], w, []. rewrite !app_nil_r. repeat split; [constructor|tauto].
  - unfold bind at 1. rewrite sample_page_unfold, fetch_museum_unfold.
    destruct (execute_sparql_total net (museum_query o) w)
      as (r & w1 & evs & Hrun & Ht & _).
    rewrite Hrun. destruct r as [results|e].
    + pose proof (collect_from_endpoint _ _ _ _ Hrun) as Hfrom.
      set (batch := collect_paintings results []) in *.
      destruct (IH (if is_nil batch then all_rows else all_rows ++ batch)
                  (slept RATE_LIMIT_SLEEP w1))
        as (extra & w' & evs' & Hloop & Hex & Ht' & Hin).
      exists (if is_nil batch then extra else batch ++ extra), w',
        (EvPost (museum_query o) :: evs ++ EvSleep RATE_LIMIT_SLEEP :: evs').
      split; [|split; [|split]].
      * rewrite Hloop. destruct (is_nil batch); [reflexivity|].
        now rewrite <- app_assoc.
      * destruct (is_nil batch); [exact Hex | now apply Forall_app].
      * rewrite Ht'. simpl. rewrite Ht. rewrite <- !app_assoc. reflexivity.
      * intros o' [<-|Ho']; [now left|]. right.
        apply in_or_app. right. right. now apply Hin.
    + destruct (IH all_rows w1) as (extra & w' & evs' & Hloop & Hex & Ht' & Hin).
      exists extra, w', (EvPost (museum_query o) :: evs ++ evs').
      split; [exact Hloop|]. split; [exact Hex|]. split.
      * rewrite Ht', Ht. rewrite <- !app_assoc. reflexivity.
      * intros o' [<-|Ho']; [now left|]. right.
        apply in_or_app. right. now apply Hin.
Qed.
(** Fuel is no part of the result of strategy 1 either. *)
Lemma notable_loop_fuel fuel : forall fuel' offset all_rows w res,
  (fuel <= fuel')%nat ->
  notable_loop net fuel offset all_rows w = Some res ->
  notable_loop net fuel' offset all_rows w = Some res.
Proof.
  induction fuel as [|fuel IH]; intros fuel' offset all_rows w res Hle;
    [discriminate|].
  destruct fuel' as [|fuel']; [lia|]. simpl. unfold bind.
  destruct (notable_page net offset all_rows w) as [[[p|e] w1]|]; auto.
  destruct p as [rows'|offset' rows']; [auto|]. apply IH. lia.
Qed.
End PaginatorFacts.

(** ** Deduplication

    [df.unique(subset=[...])] is called with polars' defaults, [keep="any"]
    and [maintain_order=False]: polars keeps one row for every value of the
    subset columns and documents no guarantee of which one, nor of the
    order of the rows it returns. *)

Lemma existsb_same_key r acc :
  existsb (same_key r) acc = true <-> In (key r) (map key acc).
Proof.
  rewrite existsb_exists, in_map_iff. unfold same_key.
  split; intros (x & H1 & H2).
  - exists x. apply bool_decide_eq_true in H2. split; [congruence|exact H1].
  - exists x. split; [exact H2|]. apply bool_decide_eq_true. congruence.
Qed.

Lemma unique_last_any l : unique_any l (unique_last l).
Proof.
  unfold unique_any. induction l as [|r l (Hnd & Hin & Hkeys)]; simpl.
  - repeat split; [constructor | tauto | tauto].
  - destruct (existsb (same_key r) (unique_last l)) eqn:E.
    + apply existsb_same_key in E. repeat split; [exact Hnd| |].
      * intros x Hx. right. now apply Hin.
      * intros x [<-|Hx]; [exact E | now apply Hkeys].
    + assert (~ In (key r) (map key (unique_last l))) as Hnot.
      { intros Hk. apply existsb_same_key in Hk. congruence. }
      repeat split.
      * simpl. now constructor.
      * intros x [<-|Hx]; [now left | right; now apply Hin].
      * intros x [<-|Hx]; [now left | right; now apply Hkeys].
  Qed.

Lemma unique_first_any l : unique_any l (unique_first l).
Proof.
  unfold unique_first.
  destruct (unique_last_any (rev l)) as (Hnd & Hin & Hkeys).
  repeat split.
  - rewrite map_rev. apply List.NoDup_rev. exact Hnd.
  - intros r Hr. apply in_rev in Hr. apply Hin in Hr. now apply in_rev in Hr.
  - intros r Hr. rewrite map_rev. apply -> in_rev.
    apply Hkeys. now apply -> in_rev.
Qed.

Section HarvestFacts.
Context `{UnicodeData}.
Variable net : nat -> Query -> PostOutcome.

(** Both phases always end, with strategy 1's rows first and strategy
    2's after them. *)
Lemma harvest_rows_total w :
  exists rows1 rows2 w1 w2,
    notable_loop net NOTABLE_FUEL 0 [] w = Some (Returned rows1, w1)
    /\ sample_loop net sample_offsets rows1 w1 = Some (Returned (rows1 ++ rows2), w2)
    /\ harvest_rows net w = Some (Returned (rows1 ++ rows2), w2)
    /\ Forall (from_endpoint net) (rows1 ++ rows2).
Proof.
  destruct (notable_loop_total net NOTABLE_FUEL 0 [] w)
    as (rows1 & w1 & evs & Hloop & Hfrom1 & _); [unfold NOTABLE_FUEL; lia..|].
  destruct (sample_loop_total net sample_offsets rows1 w1)
    as (rows2 & w2 & evs' & Hloop' & Hfrom2 & _).
  exists rows1, rows2, w1, w2. change ([] ++ rows1) with rows1 in Hloop.
  split; [exact Hloop|]. split; [exact Hloop'|]. split.
  - unfold harvest_rows, bind. rewrite Hloop. exact Hloop'.
  - now apply Forall_app.
Qed.

Lemma fetch_all_artworks_unfold unique w :
  fetch_all_artworks net unique w =
  match harvest_rows net w with
  | None => None
  | Some (Raised e, w') => Some (Raised e, w')
  | Some (Returned all_rows, w') =>
      Some (Returned {| columns := SCHEMA;
                        rows := if is_nil all_rows then [] else unique all_rows |},
            w')
  end.
Proof.
  unfold fetch_all_artworks. unfold bind at 1.
  destruct (harvest_rows net w) as [[[all_rows|e] w']|]; try reflexivity.
  now destruct (is_nil all_rows).
Qed.
End HarvestFacts.

(** ** The paginator *)




(** ** The orchestrator *)

(** C9: the harvest always returns a frame, never raises, and the frame
    always has the eight declared columns; when the two strategies
    together produced no record the frame has no row. *)
Theorem empty_harvest_is_schema_valid `{UnicodeData}
    (net : nat -> Query -> PostOutcome)
    (unique : list ArtworkRecord -> list ArtworkRecord) (w : World) :
  exists all_rows df w',
    harvest_rows net w = Some (Returned all_rows, w')
    /\ fetch_all_artworks net unique w = Some (Returned df, w')
    /\ map fst (columns df) = COLUMN_NAMES
    /\ (all_rows = [] -> df = {| columns := SCHEMA; rows := [] |}).
Proof.
  destruct (harvest_rows_total net w) as (rows1 & rows2 & w1 & w2 & _ & _ & Hrows & _).
  exists (rows1 ++ rows2),
    {| columns := SCHEMA;
       rows := if is_nil (rows1 ++ rows2) then [] else unique (rows1 ++ rows2) |},
    w2.
  split; [exact Hrows|].
  rewrite fetch_all_artworks_unfold, Hrows. split; [reflexivity|].
  split; [reflexivity|]. now intros ->.
Qed.

Example harvest_of_nothing :
  exists w', fetch_all_artworks net_empty unique_first w0
             = Some (Returned {| columns := SCHEMA; rows := [] |}, w')
             /\ posts (trace w')
                = notable_query 0 :: map museum_query sample_offsets.
Proof. eexists. split; vm_compute; reflexivity. Qed.

(** What [unique] is given when both strategies find the same painting:
    strategy 1's record ahead of strategy 2's, the two with one key.
    Which of them the frame retains is decided inside polars: the call
    names the subset and no [keep]. *)
Example harvest_accumulates_strategy_1_first :
  exists w', harvest_rows net_twice w0
             = Some (Returned [rec_mona; rec_mona_italy], w')
             /\ key rec_mona = key rec_mona_italy.
Proof. eexists. split; vm_compute; reflexivity. Qed.

(** ** Coordinates of the harvested records *)

(** C6, as stated, fails: nothing checks a range.  The geometry text
    "Point(200 100)" gives a record of the dataset with lat 100 and
    lon 200. *)
Lemma coordinates_are_not_range_checked :
  exists r w',
    fetch_all_artworks net_far unique_first w0
    = Some (Returned {| columns := SCHEMA; rows := [r] |}, w')
    /\ lat r = Some (100 # 1)%Q /\ lon r = Some (200 # 1)%Q
    /\ ~ coords_in_range r.
Proof.
  eexists. eexists. split; [vm_compute; reflexivity|].
  split; [reflexivity|]. split; [reflexivity|].
  intros [Hlat _]. destruct (Hlat _ eq_refl) as [_ Hle].
  revert Hle. unfold Qle. simpl. lia.
Qed.

Lemma row_record_coords_of_row `{UnicodeData} row r :
  row_record row = Some r -> coords_of_row row r.
Proof.
  intros Hr. apply row_record_coords in Hr. unfold coords_of_row.
  destruct (parse_coordinates_cases (get_value row "coords"))
    as [E|(s & g1 & g2 & la & lo & Hs & Hp & H1 & H2 & E)];
    rewrite E in Hr; injection Hr as -> ->; [exact I|].
  now exists s, g1, g2.
Qed.

(** C6, amended: every record of the harvested dataset was made from a
    row the endpoint sent, and its coordinates are those written in that
    row's geometry text: absent together, or present together with [lon]
    the first number of "Point(<lon> <lat>)" and [lat] the second.  No
    range is checked: [lat] is within [-90, 90] and [lon] within
    [-180, 180] when the numbers sent are. *)
Theorem dataset_coordinates_are_upstream `{UnicodeData}
    (net : nat -> Query -> PostOutcome)
    (unique : list ArtworkRecord -> list ArtworkRecord) (w : World) :
  (forall l, unique_any l (unique l)) ->
  exists df w',
    fetch_all_artworks net unique w = Some (Returned df, w')
    /\ forall r, In r (rows df) ->
         exists n q resp results row,
           net n q = PostReturns resp /\ body resp = Bindings results
           /\ In row results /\ row_record row = Some r
           /\ coords_of_row row r.
Proof.
  intros Huniq.
  destruct (harvest_rows_total net w) as (rows1 & rows2 & w1 & w2 & _ & _ & Hrows & Hfrom).
  exists {| columns := SCHEMA;
            rows := if is_nil (rows1 ++ rows2) then [] else unique (rows1 ++ rows2) |},
    w2.
  rewrite fetch_all_artworks_unfold, Hrows. split; [reflexivity|]. simpl.
  intros r Hr.
  assert (In r (rows1 ++ rows2)) as Hin.
  { destruct (is_nil (rows1 ++ rows2)); [contradiction|].
    now apply (Huniq (rows1 ++ rows2)). }
  rewrite List.Forall_forall in Hfrom.
  destruct (Hfrom r Hin) as (n & q & resp & results & row & Hn & Hb & Hrow & Hrec).
  exists n, q, resp, results, row. repeat split; try assumption.
  now apply row_record_coords_of_row.
Qed.

Lemma dataset_coordinates_are_upstream_witness :
  exists df w',
    fetch_all_artworks net_far unique_first w0 = Some (Returned df, w')
    /\ forall r, In r (rows df) ->
         exists n q resp results row,
           net_far n q = PostReturns resp /\ body resp = Bindings results
           /\ In row results /\ row_record row = Some r
           /\ coords_of_row row r.
Proof.
  exact (dataset_coordinates_are_upstream net_far unique_first w0 unique_first_any).
Defined.

Lemma row_record_paired `{UnicodeData} row r :
  row_record row = Some r -> coords_paired r.
Proof.
  intros Hr. apply row_record_coords_of_row in Hr.
  unfold coords_of_row, coords_paired in *.
  destruct (lat r), (lon r); try contradiction; split; congruence.
Qed.

Lemma collect_paintings_paired `{UnicodeData} results :
  Forall coords_paired (collect_paintings results []).
Proof.
  apply List.Forall_forall. intros r Hr.
  apply collect_paintings_In in Hr as (row & _ & Hrow).
  exact (row_record_paired row r Hrow).
Qed.

(** C10: in every record either strategy makes, [lat] is present exactly
    when [lon] is: in every batch of [fetch_notable_paintings_batch], in
    every batch of [fetch_museum_paintings_batch], and in all the rows the
    two strategies accumulate. *)
Theorem coordinates_come_in_pairs `{UnicodeData}
    (net : nat -> Query -> PostOutcome) (w : World) :
  (forall offset limit,
     exists res w', fetch_notable_paintings_batch net offset limit w = Some (res, w')
       /\ match res with
          | Returned batch => Forall coords_paired batch
          | Raised _ => True
          end)
  /\ (forall offset limit,
        exists res w', fetch_museum_paintings_batch net offset limit w = Some (res, w')
          /\ match res with
             | Returned batch => Forall coords_paired batch
             | Raised _ => True
             end)
  /\ exists all_rows w',
       harvest_rows net w = Some (Returned all_rows, w')
       /\ Forall coords_paired all_rows.
Proof.
  split; [|split].
  - intros offset limit. unfold fetch_notable_paintings_batch, bind.
    destruct (execute_sparql_total net
                {| q_strategy := Notable; q_offset := offset; q_limit := limit |} w)
      as (r & w' & evs & -> & _).
    destruct r as [results|e]; eexists; eexists; (split; [reflexivity|]);
      [apply collect_paintings_paired | exact I].
  - intros offset limit. unfold fetch_museum_paintings_batch, bind.
    destruct (execute_sparql_total net
                {| q_strategy := Museum; q_offset := offset; q_limit := limit |} w)
      as (r & w' & evs & -> & _).
    destruct r as [results|e]; eexists; eexists; (split; [reflexivity|]);
      [apply collect_paintings_paired | exact I].
  - destruct (harvest_rows_total net w)
      as (rows1 & rows2 & w1 & w2 & _ & _ & Hrows & Hfrom).
    exists (rows1 ++ rows2), w2. split; [exact Hrows|].
    eapply List.Forall_impl; [|exact Hfrom].
    intros r (n & q & resp & results & row & _ & _ & _ & Hrow).
    exact (row_record_paired row r Hrow).
Qed.

(** ** Requests and sleeps of the executor *)

Lemma sum_Z_app l1 l2 : sum_Z (l1 ++ l2) = sum_Z l1 + sum_Z l2.
Proof. induction l1 as [|x l1 IH]; simpl; [reflexivity|]. rewrite IH. lia. Qed.

Lemma retry_sleep_bounds out retries d :
  0 <= retries -> retry_sleep out retries = Some d ->
  30 <= d <= 30 * (retries + 1).
Proof.
  intros Hr. unfold retry_sleep, RATE_LIMIT_RETRY_SLEEP.
  destruct out as [e|r].
  - destruct (is_RequestException e); [|discriminate]. intros [= <-]. lia.
  - destruct (status_code r =? 429); [intros [= <-]; lia|].
    destruct (status_in [500; 502; 503; 504] r); [intros [= <-]; lia|].
    destruct ((400 <=? status_code r) && (status_code r <? 600));
      [intros [= <-]; lia|].
    destruct (body r) as [rows|e]; [discriminate|].
    destruct (is_RequestException e); [|discriminate]. intros [= <-]. lia.
Qed.

Section ExecutorEffects.
Variable net : nat -> Query -> PostOutcome.
Variable q : Query.
Variable max_retries : Z.

(** What a run of the loop adds to the world: one request of the same
    query for every pass, a sleep after each of them but the one that
    leaves the loop, and sleeps within the budget that is left. *)
Lemma execute_loop_effects fuel : forall retries w r w',
  0 <= retries <= max_retries ->
  execute_loop net fuel q max_retries retries w = Some (r, w') ->
  exists evs,
    trace w' = trace w ++ evs
    /\ clock w' = (clock w + length (posts evs))%nat
    /\ posts evs = repeat q (length (posts evs))
    /\ (length (posts evs) <= Z.to_nat (max_retries - retries))%nat
    /\ (retries < max_retries -> (1 <= length (posts evs))%nat)
    /\ (length (sleeps evs) + (if exhausted r then 0 else 1))%nat
       = length (posts evs)
    /\ 0 <= sum_Z (sleeps evs) <= backoff_budget max_retries retries.
Proof.
  unfold backoff_budget.
  induction fuel as [|fuel IH]; intros retries w r w' Hr; [discriminate|].
  rewrite execute_loop_step.
  destruct (retries <? max_retries) eqn:Hlt.
  - apply Z.ltb_lt in Hlt.
    destruct (retry_sleep (net (clock w) q) retries) as [d|] eqn:E.
    + intros Hrun.
      apply IH in Hrun as (evs & Ht & Hc & Hp & Hn & _ & Hs & Hsum); [|lia].
      assert (30 <= d <= 30 * (retries + 1)) as Hd
        by (apply (retry_sleep_bounds (net (clock w) q)); [lia|exact E]).
      exists (EvPost q :: EvSleep d :: evs). simpl in *.
      split; [rewrite Ht; now rewrite <- !app_assoc|].
      split; [lia|]. split; [now f_equal|]. split; [lia|]. split; [lia|].
      split; [lia|nia].
    + intros [= <- <-]. exists [EvPost q]. simpl.
      split; [reflexivity|]. split; [lia|]. split; [reflexivity|].
      split; [lia|]. split; [lia|]. split; [|nia].
      destruct (last_result (net (clock w) q)) as [rows|e] eqn:El;
        [reflexivity|]. simpl.
      now rewrite (last_result_not_caught _ _ _ E El).
  - apply Z.ltb_ge in Hlt. intros [= <- <-]. exists []. simpl.
    rewrite app_nil_r. assert (retries = max_retries) as -> by lia.
    repeat split; lia.
Qed.
End ExecutorEffects.

Lemma success_not_retried out retries :
  is_success out = true -> retry_sleep out retries = None.
Proof.
  unfold is_success, retry_sleep, status_in. destruct out as [e|r]; [discriminate|].
  intros Hs. apply andb_true_iff in Hs as [Hst Hb].
  apply andb_true_iff in Hst as [Hlo Hhi].
  apply Z.leb_le in Hlo. apply Z.ltb_lt in Hhi.
  destruct (Z.eqb_spec (status_code r) 429); [lia|]. simpl.
  destruct (Z.eqb_spec (status_code r) 500); [lia|].
  destruct (Z.eqb_spec (status_code r) 502); [lia|].
  destruct (Z.eqb_spec (status_code r) 503); [lia|].
  destruct (Z.eqb_spec (status_code r) 504); [lia|]. simpl.
  destruct (Z.leb_spec 400 (status_code r)); [lia|]. simpl.
  now destruct (body r).
Qed.

Lemma execute_loop_first_final net q max_retries j : forall fuel retries w,
  (j < fuel)%nat -> retries + Z.of_nat j < max_retries ->
  (forall i, (i < j)%nat ->
     retry_sleep (net (clock w + i)%nat q) (retries + Z.of_nat i) <> None) ->
  retry_sleep (net (clock w + j)%nat q) (retries + Z.of_nat j) = None ->
  exists w',
    execute_loop net fuel q max_retries retries w
    = Some (last_result (net (clock w + j)%nat q), w')
    /\ clock w' = (clock w + j + 1)%nat.
Proof.
  induction j as [|j IH]; intros fuel retries w Hfuel Hlt Hall Hlast;
    (destruct fuel as [|fuel]; [lia|]); rewrite execute_loop_step;
    (destruct (Z.ltb_spec retries max_retries); [|lia]).
  - rewrite Nat.add_0_r, Z.add_0_r in *. rewrite Hlast.
    exists (posted q w). split; [reflexivity|]. simpl. lia.
  - destruct (retry_sleep (net (clock w) q) retries) as [d|] eqn:E.
    2:{ exfalso. apply (Hall 0%nat); [lia|].
        now rewrite Nat.add_0_r, Z.add_0_r. }
    destruct (IH fuel (retries + 1) (slept d (posted q w))) as (w' & Hrun & Hclk).
    + lia.
    + lia.
    + intros i Hi. simpl.
      replace (S (clock w + i))%nat with (clock w + S i)%nat by lia.
      replace (retries + 1 + Z.of_nat i) with (retries + Z.of_nat (S i)) by lia.
      apply Hall. lia.
    + simpl.
      replace (S (clock w + j))%nat with (clock w + S j)%nat by lia.
      replace (retries + 1 + Z.of_nat j) with (retries + Z.of_nat (S j)) by lia.
      exact Hlast.
    + simpl in Hrun, Hclk.
      replace (S (clock w + j))%nat with (clock w + S j)%nat in Hrun by lia.
      exists w'. split; [exact Hrun|lia].
Qed.

Lemma execute_sparql_effects (net : nat -> Query -> PostOutcome)
    (q : Query) (w : World) :
  exists r w' evs n,
    _execute_sparql net q MAX_RETRIES w = Some (r, w')
    /\ trace w' = trace w ++ evs
    /\ tries n /\ posts evs = repeat q n /\ clock w' = (clock w + n)%nat
    /\ length (sleeps evs) = (if exhausted r then n else n - 1)%nat
    /\ 0 <= sum_Z (sleeps evs) <= 450.
Proof.
  destruct (execute_sparql_total net q w) as (r & w' & evs0 & Hrun & _).
  pose proof Hrun as Hrun'. unfold _execute_sparql in Hrun'.
  apply execute_loop_effects in Hrun'
    as (evs & Ht & Hc & Hp & Hn & H1 & Hs & Hsum); [|unfold MAX_RETRIES; lia].
  change (Z.to_nat (MAX_RETRIES - 0)) with 5%nat in Hn.
  specialize (H1 eq_refl).
  change (backoff_budget MAX_RETRIES 0) with 450 in Hsum.
  exists r, w', evs, (length (posts evs)).
  split; [exact Hrun|]. split; [exact Ht|]. split; [unfold tries; lia|].
  split; [exact Hp|]. split; [exact Hc|]. split; [|exact Hsum].
  destruct (exhausted r); lia.
Qed.

(** One call of the executor sends its query between one and five times
    and nothing else.  It sleeps after every request but the one it ends
    on, and after that one too when the budget is spent; in all it sleeps
    at most 30 + 60 + 90 + 120 + 150 = 450 seconds. *)
Theorem execute_sparql_requests_and_sleeps (net : nat -> Query -> PostOutcome)
    (q : Query) (w : World) :
  exists r w' evs n,
    _execute_sparql net q MAX_RETRIES w = Some (r, w')
    /\ trace w' = trace w ++ evs
    /\ tries n /\ posts evs = repeat q n /\ clock w' = (clock w + n)%nat
    /\ length (sleeps evs) = (if exhausted r then n else n - 1)%nat
    /\ 0 <= sum_Z (sleeps evs) <= 450.
Proof. exact (execute_sparql_effects net q w). Qed.

(** The executor returns rows only from an answer that is no error: the
    rows are those of the body of the last response, whose status is
    neither 429 nor in the range 400 to 599. *)
Theorem execute_sparql_rows_are_of_a_good_answer
    (net : nat -> Query -> PostOutcome) (q : Query) (w : World) :
  exists r w',
    _execute_sparql net q MAX_RETRIES w = Some (r, w')
    /\ match r with
       | Returned rows =>
           exists resp,
             net (clock w' - 1)%nat q = PostReturns resp
             /\ body resp = Bindings rows
             /\ status_code resp <> 429
             /\ ~ (400 <= status_code resp < 600)
       | Raised _ => True
       end.
Proof.
  destruct (execute_sparql_total net q w) as (r & w' & evs0 & Hrun & _).
  exists r, w'. split; [exact Hrun|]. destruct r as [rows|e]; [|exact I].
  unfold _execute_sparql in Hrun.
  destruct (execute_loop_last_not_retried net q MAX_RETRIES _ _ _ _ _ Hrun I)
    as (k & Hk).
  pose proof (execute_loop_result net q MAX_RETRIES _ _ _ _ _ Hrun) as [_ Hlast].
  unfold last_result in Hlast. unfold retry_sleep in Hk.
  destruct (net (clock w' - 1)%nat q) as [e|resp]; [discriminate|].
  exists resp. split; [reflexivity|].
  destruct (Z.eqb_spec (status_code resp) 429); [discriminate|].
  destruct (status_in [500; 502; 503; 504] resp); [discriminate|].
  destruct ((400 <=? status_code resp) && (status_code resp <? 600)) eqn:Eerr;
    [discriminate|].
  destruct (body resp) as [rows'|e]; [|discriminate].
  injection Hlast as ->. repeat split; [assumption|].
  intros [Hlo Hhi]. apply andb_false_iff in Eerr as [E|E].
  - apply Z.leb_gt in E. lia.
  - apply Z.ltb_ge in E. lia.
Qed.

(** The first good answer wins: when the first [j] outcomes (j < 5) are
    retryable and the next one is a good answer, the executor returns the
    rows of that answer after j + 1 requests and j sleeps. *)
Theorem execute_sparql_recovers (net : nat -> Query -> PostOutcome) (q : Query)
    (w : World) (j : nat) :
  (j < 5)%nat ->
  (forall i, (i < j)%nat -> retryable (net (clock w + i)%nat q) = true) ->
  is_success (net (clock w + j)%nat q) = true ->
  exists rows w',
    _execute_sparql net q MAX_RETRIES w = Some (Returned rows, w')
    /\ last_result (net (clock w + j)%nat q) = Returned rows
    /\ clock w' = (clock w + j + 1)%nat
    /\ length (sleeps (skipn (length (trace w)) (trace w'))) = j.
Proof.
  intros Hj Hall Hsucc.
  destruct (success_last_result _ Hsucc) as (rows & Hrows).
  destruct (execute_loop_first_final net q MAX_RETRIES j
              (S (Z.to_nat MAX_RETRIES)) 0 w) as (w' & Hrun & Hclk).
  - change (Z.to_nat MAX_RETRIES) with 5%nat. lia.
  - unfold MAX_RETRIES. lia.
  - intros i Hi. now apply retryable_retry_sleep, Hall.
  - now apply success_not_retried.
  - rewrite Hrows in Hrun. exists rows, w'.
    split; [exact Hrun|]. split; [exact Hrows|]. split; [exact Hclk|].
    apply execute_loop_effects in Hrun
      as (evs & Ht & Hc & _ & _ & _ & Hs & _); [|unfold MAX_RETRIES; lia].
    rewrite Ht, skipn_app, skipn_all, Nat.sub_diag, skipn_O. simpl in *. lia.
Qed.

Lemma execute_sparql_recovers_witness :
  exists rows w',
    _execute_sparql net_503x3 (notable_query 0) MAX_RETRIES w0 = Some (Returned rows, w')
    /\ last_result (net_503x3 (clock w0 + 3)%nat (notable_query 0)) = Returned rows
    /\ clock w' = (clock w0 + 3 + 1)%nat
    /\ length (sleeps (skipn (length (trace w0)) (trace w'))) = 3%nat.
Proof.
  apply (execute_sparql_recovers net_503x3 (notable_query 0) w0 3); [lia| |reflexivity].
  intros i Hi. simpl. destruct i as [|[|[|i]]]; [reflexivity..|lia].
Defined.

(** ** Requests and sleeps of a harvest *)

Lemma page_offsets_S offset n :
  page_offsets offset (S n) = offset :: page_offsets (offset + BATCH_SIZE) n.
Proof.
  unfold page_offsets. simpl. f_equal; [lia|].
  rewrite <- seq_shift, map_map. apply map_ext. intros k. lia.
Qed.

Lemma length_page_offsets offset n : length (page_offsets offset n) = n.
Proof. unfold page_offsets. now rewrite length_map, length_seq. Qed.

Lemma length_request_plan mk : forall offsets counts,
  Forall tries counts ->
  (length (request_plan mk (zip offsets counts)) <= 5 * length counts)%nat.
Proof.
  induction offsets as [|o offsets IH]; intros counts Hc; simpl; [lia|].
  destruct counts as [|n counts]; simpl; [lia|].
  inversion Hc as [|? ? Hn Hc']; subst. specialize (IH counts Hc').
  unfold request_plan in *. rewrite length_app, repeat_length.
  unfold tries in Hn. lia.
Qed.

Section HarvestEffects.
Context `{UnicodeData}.
Variable net : nat -> Query -> PostOutcome.

(** The pages of strategy 1: consecutive offsets from the first one on,
    each requested between one and five times, every page after the
    first below the limit of 2000; a sleep of 2 seconds between two pages
    and none after the last. *)
Lemma notable_loop_effects fuel : forall offset all_rows w res w',
  notable_loop net fuel offset all_rows w = Some (res, w') ->
  exists evs counts,
    trace w' = trace w ++ evs
    /\ clock w' = (clock w + length (posts evs))%nat
    /\ (1 <= length counts <= fuel)%nat
    /\ Forall tries counts
    /\ posts evs
       = request_plan notable_query (zip (page_offsets offset (length counts)) counts)
    /\ (forall k, (0 < k < length counts)%nat -> offset + 200 * Z.of_nat k < 2000)
    /\ 0 <= sum_Z (sleeps evs) <= 452 * Z.of_nat (length counts) - 2.
Proof.
  induction fuel as [|fuel IH]; intros offset all_rows w res w'; [discriminate|].
  simpl. unfold bind at 1. rewrite notable_page_unfold, fetch_notable_unfold.
  destruct (execute_sparql_effects net (notable_query offset) w)
    as (r & w1 & evs1 & n & Hrun & Ht & Hn & Hp & Hc & _ & Hsum).
  rewrite Hrun.
  assert (forall rows', Some (Returned rows', w1) = Some (res, w') ->
          exists evs counts,
            trace w' = trace w ++ evs
            /\ clock w' = (clock w + length (posts evs))%nat
            /\ (1 <= length counts <= S fuel)%nat
            /\ Forall tries counts
            /\ posts evs
               = request_plan notable_query
                   (zip (page_offsets offset (length counts)) counts)
            /\ (forall k, (0 < k < length counts)%nat ->
                  offset + 200 * Z.of_nat k < 2000)
            /\ 0 <= sum_Z (sleeps evs) <= 452 * Z.of_nat (length counts) - 2)
    as Hstop.
  { intros rows' [= <- <-]. exists evs1, [n]. simpl.
    split; [exact Ht|]. split; [rewrite Hp, repeat_length; exact Hc|].
    split; [lia|]. split; [now constructor|]. split.
    - rewrite Hp. unfold request_plan. simpl. rewrite app_nil_r.
      now rewrite Z.add_0_r.
    - split; [intros k Hk; lia | lia]. }
  destruct r as [results|e]; [|apply Hstop].
  destruct (is_nil (collect_paintings results [])); [apply Hstop|].
  unfold BATCH_SIZE at 1 2.
  destruct (offset + 200 >=? 2000) eqn:Hcap; [apply Hstop|].
  assert (offset + 200 < 2000) as Hlt.
  { unfold Z.geb in Hcap. destruct (offset + 200 ?= 2000) eqn:Hcmp;
      try discriminate. now apply Z.compare_lt_iff. }
  intros Hloop.
  apply IH in Hloop as (evs2 & counts & Ht2 & Hc2 & Hlen & Htries & Hp2 & Hoff & Hsum2).
  exists (evs1 ++ EvSleep RATE_LIMIT_SLEEP :: evs2), (n :: counts).
  simpl in Ht2, Hc2.
  split; [rewrite Ht2, Ht; now rewrite <- !app_assoc|].
  rewrite posts_app, sleeps_app, sum_Z_app. simpl.
  rewrite length_app, Hp, repeat_length. split; [lia|]. split; [lia|].
  split; [now constructor|]. split; [|split].
  - transitivity (request_plan notable_query
                    (zip (page_offsets offset (S (length counts))) (n :: counts)));
      [|reflexivity].
    rewrite page_offsets_S, Hp2. reflexivity.
  - intros k Hk. destruct (Nat.eq_dec k 1%nat) as [->|Hk1]; [lia|].
    assert (0 < k - 1 < length counts)%nat as Hk' by (simpl in Hk; lia).
    apply Hoff in Hk'. lia.
  - unfold RATE_LIMIT_SLEEP. lia.
Qed.

(** The samples of strategy 2: every offset of the list, in the order of
    the list, each requested between one and five times. *)
Lemma sample_loop_effects offsets : forall all_rows w res w',
  sample_loop net offsets all_rows w = Some (res, w') ->
  exists evs counts,
    trace w' = trace w ++ evs
    /\ clock w' = (clock w + length (posts evs))%nat
    /\ length counts = length offsets
    /\ Forall tries counts
    /\ posts evs = request_plan museum_query (zip offsets counts)
    /\ 0 <= sum_Z (sleeps evs) <= 452 * Z.of_nat (length offsets).
Proof.
  induction offsets as [|o offsets IH]; intros all_rows w res w'; simpl.
  - intros [= <- <-]. exists [], []. rewrite app_nil_r. simpl.
    repeat split; try lia. constructor.
  - unfold bind at 1. rewrite sample_page_unfold, fetch_museum_unfold.
    destruct (execute_sparql_effects net (museum_query o) w)
      as (r & w1 & evs1 & n & Hrun & Ht & Hn & Hp & Hc & _ & Hsum).
    rewrite Hrun. destruct r as [results|e]; intros Hloop;
      apply IH in Hloop as (evs2 & counts & Ht2 & Hc2 & Hlen & Htries & Hp2 & Hsum2).
    + exists (evs1 ++ EvSleep RATE_LIMIT_SLEEP :: evs2), (n :: counts).
      simpl in Ht2, Hc2.
      split; [rewrite Ht2, Ht; now rewrite <- !app_assoc|].
      rewrite posts_app, sleeps_app, sum_Z_app. simpl.
      rewrite length_app, Hp, repeat_length. split; [lia|]. split; [lia|].
      split; [now constructor|]. split.
      * rewrite Hp2. reflexivity.
      * unfold RATE_LIMIT_SLEEP. lia.
    + exists (evs1 ++ evs2), (n :: counts).
      split; [rewrite Ht2, Ht; now rewrite <- !app_assoc|].
      rewrite posts_app, sleeps_app, sum_Z_app. simpl.
      rewrite length_app, Hp, repeat_length. split; [lia|]. split; [lia|].
      split; [now constructor|]. split.
      * rewrite Hp2. reflexivity.
      * lia.
Qed.

(** The two phases together. *)
Lemma harvest_effects w :
  exists all_rows w' evs1 evs2 counts1 counts2,
    harvest_rows net w = Some (Returned all_rows, w')
    /\ trace w' = trace w ++ evs1 ++ evs2
    /\ clock w' = (clock w + length (posts evs1) + length (posts evs2))%nat
    /\ (1 <= length counts1 <= 10)%nat /\ Forall tries counts1
    /\ posts evs1
       = request_plan notable_query (zip (page_offsets 0 (length counts1)) counts1)
    /\ length counts2 = 6%nat /\ Forall tries counts2
    /\ posts evs2 = request_plan museum_query (zip sample_offsets counts2)
    /\ 0 <= sum_Z (sleeps evs1) <= 4518
    /\ 0 <= sum_Z (sleeps evs2) <= 2712.
Proof.
  destruct (harvest_rows_total net w)
    as (rows1 & rows2 & w1 & w2 & H1 & H2 & Hrows & _).
  apply notable_loop_effects in H1
    as (evs1 & counts1 & Ht1 & Hc1 & Hlen1 & Htr1 & Hp1 & _ & Hs1).
  apply sample_loop_effects in H2
    as (evs2 & counts2 & Ht2 & Hc2 & Hlen2 & Htr2 & Hp2 & Hs2).
  exists (rows1 ++ rows2), w2, evs1, evs2, counts1, counts2.
  unfold NOTABLE_FUEL in Hlen1. simpl in Hlen2, Hs2.
  split; [exact Hrows|]. split; [rewrite Ht2, Ht1; now rewrite <- app_assoc|].
  repeat split; try assumption; lia.
Qed.
End HarvestEffects.

(** The requests of a harvest, whatever the endpoint answers: first
    between one and ten pages of notable works in a row, offsets 0, 200,
    400, ..., then the six sample offsets in the order of their list,
    every page requested between one and five times.  No failure of
    strategy 1 or of a sample keeps a later sample from being requested. *)
Theorem harvest_request_plan `{UnicodeData} (net : nat -> Query -> PostOutcome)
    (unique : list ArtworkRecord -> list ArtworkRecord) (w : World) :
  exists df w' evs1 evs2 counts1 counts2,
    fetch_all_artworks net unique w = Some (Returned df, w')
    /\ trace w' = trace w ++ evs1 ++ evs2
    /\ (1 <= length counts1 <= 10)%nat /\ Forall tries counts1
    /\ posts evs1
       = request_plan notable_query (zip (page_offsets 0 (length counts1)) counts1)
    /\ length counts2 = 6%nat /\ Forall tries counts2
    /\ posts evs2
       = request_plan museum_query (zip [0; 5000; 10000; 20000; 30000; 50000] counts2).
Proof.
  destruct (harvest_effects net w)
    as (all_rows & w' & evs1 & evs2 & counts1 & counts2 & Hrows & Ht & _
        & Hl1 & Ht1 & Hp1 & Hl2 & Ht2 & Hp2 & _).
  exists {| columns := SCHEMA;
            rows := if is_nil all_rows then [] else unique all_rows |},
    w', evs1, evs2, counts1, counts2.
  rewrite fetch_all_artworks_unfold, Hrows. repeat split; assumption || lia.
Qed.

(** What a harvest costs at most: 80 requests (16 pages, five tries each)
    and 7230 seconds of sleep (450 for the retries of each page, 2 after
    each page but the last of strategy 1). *)
Theorem harvest_budget `{UnicodeData} (net : nat -> Query -> PostOutcome)
    (unique : list ArtworkRecord -> list ArtworkRecord) (w : World) :
  exists df w' evs,
    fetch_all_artworks net unique w = Some (Returned df, w')
    /\ trace w' = trace w ++ evs
    /\ clock w' = (clock w + length (posts evs))%nat
    /\ (length (posts evs) <= 80)%nat
    /\ 0 <= sum_Z (sleeps evs) <= 7230.
Proof.
  destruct (harvest_effects net w)
    as (all_rows & w' & evs1 & evs2 & counts1 & counts2 & Hrows & Ht & Hc
        & Hl1 & Ht1 & Hp1 & Hl2 & Ht2 & Hp2 & Hs1 & Hs2).
  exists {| columns := SCHEMA;
            rows := if is_nil all_rows then [] else unique all_rows |},
    w', (evs1 ++ evs2).
  rewrite fetch_all_artworks_unfold, Hrows.
  rewrite posts_app, sleeps_app, sum_Z_app, length_app.
  pose proof (length_request_plan notable_query
                (page_offsets 0 (length counts1)) counts1 Ht1) as Hn1.
  pose proof (length_request_plan museum_query sample_offsets counts2 Ht2) as Hn2.
  rewrite <- Hp1 in Hn1. rewrite <- Hp2 in Hn2.
  repeat split; try assumption; lia.
Qed.

(** ** Labels of the harvested records *)

Lemma is_qid_false_nonempty `{UnicodeData} label :
  _is_qid label = false -> label <> [].
Proof. intros Hq ->. discriminate. Qed.

Lemma row_record_labelled `{UnicodeData} row r :
  row_record row = Some r -> labelled r.
Proof.
  unfold row_record, labelled.
  destruct (_is_qid (get_value_or row "painterLabel" (py ""))) eqn:E1;
    [discriminate|].
  destruct (_is_qid (get_value_or row "paintingLabel" (py ""))) eqn:E2;
    [discriminate|].
  destruct (_is_qid (get_value_or row "museumLabel" (py ""))) eqn:E3;
    [discriminate|]. simpl.
  destruct (_parse_coordinates (get_value row "coords")) as [la lo].
  intros [= <-]. simpl.
  repeat split; try assumption; try (now apply is_qid_false_nonempty).
Qed.

(** Every record of the harvested dataset has a painter, a painting and a
    museum that are neither empty nor an untranslated identifier, and has
    "Unknown" for its city. *)
Theorem dataset_records_are_labelled `{UnicodeData}
    (net : nat -> Query -> PostOutcome)
    (unique : list ArtworkRecord -> list ArtworkRecord) (w : World) :
  (forall l r, In r (unique l) -> In r l) ->
  exists df w',
    fetch_all_artworks net unique w = Some (Returned df, w')
    /\ Forall labelled (rows df).
Proof.
  intros Huniq.
  destruct (harvest_rows_total net w)
    as (rows1 & rows2 & w1 & w2 & _ & _ & Hrows & Hfrom).
  exists {| columns := SCHEMA;
            rows := if is_nil (rows1 ++ rows2) then [] else unique (rows1 ++ rows2) |},
    w2.
  rewrite fetch_all_artworks_unfold, Hrows. split; [reflexivity|]. simpl.
  apply List.Forall_forall. intros r Hr.
  assert (In r (rows1 ++ rows2)) as Hin.
  { destruct (is_nil (rows1 ++ rows2)); [contradiction | now apply Huniq]. }
  rewrite List.Forall_forall in Hfrom.
  destruct (Hfrom r Hin) as (n & q & resp & results & row & _ & _ & _ & Hrec).
  exact (row_record_labelled row r Hrec).
Qed.

Lemma dataset_records_are_labelled_witness :
  exists df w',
    fetch_all_artworks net_twice unique_first w0 = Some (Returned df, w')
    /\ Forall labelled (rows df).
Proof.
  apply (dataset_records_are_labelled net_twice unique_first w0).
  intros l r. apply (unique_first_any l).
Defined.

(** ** Numbers of a geometry text *)

(** Parsing gives coordinates exactly for a text that starts with
    [Point(<lon> <lat>)] where both tokens are numbers without exponent:
    an optional minus sign, then digits with at most one point among
    them and at least one digit.  For every other text, or none, it gives
    [(None, None)], never one coordinate alone. *)
Theorem parse_coordinates_numbers `{UnicodeData} (coord_str : option pystr) :
  (forall la lo,
     _parse_coordinates coord_str = (Some la, Some lo)
     <-> exists s g1 g2,
           coord_str = Some s /\ point_prefix s g1 g2
           /\ decimal_token g1 lo /\ decimal_token g2 la)
  /\ (_parse_coordinates coord_str = (None, None)
      \/ exists la lo, _parse_coordinates coord_str = (Some la, Some lo)).
Proof.
  split.
  - intros la lo. split.
    + intros Hp.
      destruct (parse_coordinates_cases coord_str)
        as [E|(s & g1 & g2 & la' & lo' & Hs & Hpre & H1 & H2 & E)];
        rewrite E in Hp; [discriminate|]. injection Hp as <- <-.
      exists s, g1, g2. split; [exact Hs|]. split; [exact Hpre|].
      split; now apply float_of_token_spec.
    + intros (s & g1 & g2 & -> & Hpre & H1 & H2).
      apply float_of_token_spec in H1, H2. unfold _parse_coordinates.
      rewrite (proj2 (match_point_spec s g1 g2) Hpre), H1, H2.
      destruct Hpre as (ws & rest & -> & _). reflexivity.
  - destruct (parse_coordinates_cases coord_str)
      as [E|(s & g1 & g2 & la & lo & _ & _ & _ & _ & E)]; [now left|].
    right. now exists la, lo.
Qed.

(** ** The groups of a popup *)

Example popup_of_one_painter :
  _build_popup_html (py "Louvre") (py "France")
    (paintings_by_painter [py "L & V"] [py "Mona <Lisa>"] None)
  = py "<b>Louvre</b><br><i>France</i><br><br><b>L &amp; V</b><ul style='margin: 2px 0 8px 0; padding-left: 16px;'><li>Mona &lt;Lisa&gt;</li></ul>".
Proof. reflexivity. Qed.

Lemma dict_mem_get k d : dict_mem k d = true <-> dict_get k d <> None.
Proof.
  induction d as [|[k' vs] d IH]; simpl; [split; [discriminate|congruence]|].
  destruct (bool_decide (k' = k)); simpl; [split; [discriminate|reflexivity]|].
  exact IH.
Qed.

Lemma dict_mem_keys k d : dict_mem k d = true <-> In k (map fst d).
Proof.
  unfold dict_mem. rewrite existsb_exists, in_map_iff.
  split; intros (item & H1 & H2); exists item.
  - apply bool_decide_eq_true in H2. tauto.
  - split; [tauto|]. apply bool_decide_eq_true. tauto.
Qed.

Lemma dict_append_keys k v d : map fst (dict_append k v d) = map fst d.
Proof.
  induction d as [|[k' vs] d IH]; simpl; [reflexivity|].
  destruct (bool_decide (k' = k)); simpl; [reflexivity|]. now rewrite IH.
Qed.

Lemma dict_get_append k v d k0 :
  dict_get k0 (dict_append k v d)
  = if bool_decide (k = k0) then option_map (fun vs => vs ++ [v]) (dict_get k0 d)
    else dict_get k0 d.
Proof.
  induction d as [|[k' vs] d IH]; simpl; [now destruct (bool_decide (k = k0))|].
  destruct (bool_decide_reflect (k' = k)) as [->|Hne]; simpl.
  - destruct (bool_decide_reflect (k = k0)) as [->|Hne0]; [reflexivity|].
    destruct (bool_decide_reflect (k = k0)); [contradiction|reflexivity].
  - destruct (bool_decide_reflect (k' = k0)) as [->|Hne0].
    + destruct (bool_decide_reflect (k = k0)) as [->|_]; [contradiction|reflexivity].
    + exact IH.
Qed.

Lemma dict_get_snoc k0 d k vs :
  dict_get k0 (d ++ [(k, vs)])
  = match dict_get k0 d with
    | Some x => Some x
    | None => if bool_decide (k = k0) then Some vs else None
    end.
Proof.
  induction d as [|[k' vs'] d IH]; simpl; [reflexivity|].
  destruct (bool_decide (k' = k0)); [reflexivity|exact IH].
Qed.

Lemma group_loop_cons p t u rows d :
  group_loop ((p, t, u) :: rows) d
  = group_loop rows
      (dict_append p (t, default [] u)
         (if dict_mem p d then d else d ++ [(p, [])])).
Proof. reflexivity. Qed.

(** The state of the dict after the loop, from its state before: every
    painter keeps what it had and gains its rows, in their order; the
    keys stay apart; new painters come after the old ones, in the order
    they first appear. *)
Lemma group_loop_spec rows : forall d,
  List.NoDup (map fst d) ->
  List.NoDup (map fst (group_loop rows d))
  /\ map fst (group_loop rows d) = map fst d ++ first_seen (map fst d) rows
  /\ forall painter,
       dict_get painter (group_loop rows d)
       = match dict_get painter d, entries_of painter rows with
         | None, [] => None
         | o, es => Some (default [] o ++ es)
         end.
Proof.
  induction rows as [|[[p t] u] rows IH]; intros d Hnd.
  - simpl. split; [exact Hnd|]. split; [now rewrite app_nil_r|].
    intros painter. unfold entries_of. simpl.
    destruct (dict_get painter d); [now rewrite app_nil_r|reflexivity].
  - rewrite !group_loop_cons.
    match goal with
    | |- context [dict_append _ _ ?D] => remember D as d1 eqn:Hd1
    end.
    assert (List.NoDup (map fst d1)
            /\ map fst d1 = map fst d ++ (if dict_mem p d then [] else [p])
            /\ forall k, dict_get k d1
                 = match dict_get k d with
                   | Some x => Some x
                   | None => if bool_decide (p = k) then Some [] else None
                   end) as (Hnd1 & Hk1 & Hg1).
    { rewrite Hd1. clear Hd1. destruct (dict_mem p d) eqn:Hm.
      - split; [exact Hnd|]. split; [now rewrite app_nil_r|].
        intros k. destruct (dict_get k d) eqn:E; [reflexivity|].
        destruct (bool_decide_reflect (p = k)) as [<-|_]; [|reflexivity].
        apply dict_mem_get in Hm. contradiction.
      - split; [|split; [now rewrite map_app|intros k; apply dict_get_snoc]].
        rewrite map_app. simpl. apply NoDup_ListNoDup, NoDup_app.
        split; [now apply NoDup_ListNoDup|]. split; [|apply NoDup_singleton].
        intros x Hx Hx'. apply list_elem_of_singleton in Hx'. subst x.
        apply list_elem_of_In, dict_mem_keys in Hx. congruence. }
    match goal with
    | |- context [group_loop rows ?D] =>
        destruct (IH D) as (Hnd' & Hk' & Hg'); [now rewrite dict_append_keys|]
    end.
    split; [exact Hnd'|]. split.
    + rewrite Hk', dict_append_keys, Hk1. cbn [first_seen fst].
      destruct (dict_mem p d) eqn:Hm.
      * rewrite app_nil_r.
        apply dict_mem_keys, list_elem_of_In in Hm.
        now rewrite (bool_decide_eq_true_2 _ Hm).
      * assert (p ∉ map fst d) as Hp.
        { intros Hin. apply list_elem_of_In, dict_mem_keys in Hin. congruence. }
        rewrite (bool_decide_eq_false_2 _ Hp). now rewrite <- app_assoc.
    + intros painter. rewrite Hg', dict_get_append, Hg1.
      unfold entries_of. cbn [List.filter fst snd].
      destruct (bool_decide_reflect (p = painter)) as [->|Hne]; cbn [map fst snd].
      * destruct (dict_get painter d) as [vs|]; cbn [option_map default];
          unfold id; [now rewrite <- app_assoc | reflexivity].
      * now destruct (dict_get painter d).
Qed.

Lemma dict_append_total k v d :
  dict_mem k d = true ->
  length (flat_map snd (dict_append k v d)) = S (length (flat_map snd d)).
Proof.
  induction d as [|[k' vs] d IH]; simpl; [discriminate|].
  destruct (bool_decide (k' = k)); simpl.
  - intros _. rewrite !length_app. simpl. lia.
  - intros Hm. rewrite !length_app, (IH Hm). lia.
Qed.

Lemma group_loop_total rows : forall d,
  length (flat_map snd (group_loop rows d)) = (length (flat_map snd d) + length rows)%nat.
Proof.
  induction rows as [|[[p t] u] rows IH]; intros d; [simpl; lia|].
  rewrite group_loop_cons, IH, dict_append_total.
  - destruct (dict_mem p d); [simpl; lia|].
    rewrite flat_map_app, length_app. simpl. lia.
  - destruct (dict_mem p d) eqn:Hm; [exact Hm|].
    unfold dict_mem. rewrite existsb_app. simpl.
    rewrite bool_decide_eq_true_2 by reflexivity. now rewrite orb_true_r.
Qed.

(** The dict the renderer builds from the rows of one museum: its keys
    are the painters of the rows, each once, in the order they first
    appear; under a painter are the (painting, url) pairs of its rows, in
    the order of the rows, a missing url as the empty string; no row is
    lost and none is counted twice. *)
Theorem paintings_by_painter_groups (painters paintings : list pystr)
    (wiki_urls : option (list (option pystr))) :
  let rows :=
    zip3 painters paintings
      (match wiki_urls with
       | Some urls => urls
       | None => repeat (Some []) (length painters)
       end) in
  let d := paintings_by_painter painters paintings wiki_urls in
  List.NoDup (map fst d)
  /\ map fst d = first_seen [] rows
  /\ (forall painter,
        dict_get painter d
        = match entries_of painter rows with
          | [] => None
          | es => Some es
          end)
  /\ length (flat_map snd d) = length rows.
Proof.
  intros rows d. unfold d, paintings_by_painter. fold rows.
  destruct (group_loop_spec rows []) as (Hnd & Hk & Hg); [constructor|].
  split; [exact Hnd|]. split; [exact Hk|]. split.
  - intros painter. rewrite Hg. simpl. now destruct (entries_of painter rows).
  - now rewrite group_loop_total.
Qed.

(** ** The markup of a popup *)

Lemma templated_app a b : templated a -> templated b -> templated (a ++ b).
Proof.
  intros Ha Hb. induction Ha as [|c s Hc _ IH|t s Ht _ IH|url s Hu _ IH].
  - exact Hb.
  - simpl. now constructor.
  - rewrite <- app_assoc. now constructor.
  - rewrite <- app_assoc. now constructor.
Qed.

Lemma templated_plain s : Forall plain s -> templated s.
Proof. induction 1; now constructor. Qed.

Lemma templated_one_tag t : In t TAGS -> templated t.
Proof. intros Ht. rewrite <- (app_nil_r t). constructor; [exact Ht|constructor]. Qed.

Lemma str_replace_char_app c new a b :
  str_replace_char c new (a ++ b)
  = str_replace_char c new a ++ str_replace_char c new b.
Proof. unfold str_replace_char. apply flat_map_app. Qed.

Lemma html_escape_app a b : html_escape (a ++ b) = html_escape a ++ html_escape b.
Proof. unfold html_escape. now rewrite !str_replace_char_app. Qed.

Lemma plain_dec c :
  plain c \/ c = LT \/ c = GT \/ c = QUOTE \/ c = APOS.
Proof.
  unfold plain.
  destruct (N.eq_dec c LT), (N.eq_dec c GT), (N.eq_dec c QUOTE),
    (N.eq_dec c APOS); tauto.
Qed.

Lemma Forall_plain_literal (s : pystr) :
  forallb (fun c => negb ((c =? LT)%N || (c =? GT)%N || (c =? QUOTE)%N || (c =? APOS)%N)) s
  = true ->
  Forall plain s.
Proof.
  intros Hs. apply Forall_forall. intros c Hc.
  rewrite forallb_forall in Hs. apply list_elem_of_In, Hs in Hc.
  apply negb_true_iff in Hc. rewrite !orb_false_iff, !N.eqb_neq in Hc.
  unfold plain. tauto.
Qed.

(** Escaped text has no angle bracket and no quote left. *)
Lemma html_escape_plain s : Forall plain (html_escape s).
Proof.
  induction s as [|c s IH]; [constructor|].
  change (c :: s) with ([c] ++ s). rewrite html_escape_app.
  apply Forall_app. split; [|exact IH].
  destruct (N.eq_dec c AMP) as [->|Hamp];
    [now apply Forall_plain_literal|].
  destruct (plain_dec c) as [Hp|[->|[->|[->| ->]]]];
    try (now apply Forall_plain_literal).
  assert (html_escape [c] = [c]) as ->; [|now constructor].
  destruct Hp as (H1 & H2 & H3 & H4).
  unfold html_escape, str_replace_char. simpl.
  apply N.eqb_neq in Hamp, H1, H2, H3, H4.
  rewrite Hamp. simpl. rewrite H1. simpl. rewrite H2. simpl.
  rewrite H3. simpl. now rewrite H4.
Qed.

Lemma uint_digits_plain d : Forall plain (uint_digits d).
Proof.
  induction d; simpl; constructor; try assumption;
    unfold plain, LT, GT, QUOTE, APOS; repeat split; discriminate.
Qed.

Lemma str_of_nat_plain n : Forall plain (str_of_nat n).
Proof. apply uint_digits_plain. Qed.

Lemma in_tags_li : In (py "<li>") TAGS /\ In (py "</li>") TAGS.
Proof. split; simpl; tauto. Qed.

Lemma titles_loop_cons title url paintings content total_shown :
  titles_loop ((title, url) :: paintings) content total_shown
  = titles_loop paintings
      (content ++ py "<li>" ++ html_escape title ++ py "</li>")
      (total_shown + 1).
Proof. reflexivity. Qed.

Lemma titles_loop_templated paintings : forall content total_shown,
  templated content ->
  templated (fst (titles_loop paintings content total_shown)).
Proof.
  induction paintings as [|[title url] paintings IH]; intros content total Hc;
    [exact Hc|].
  rewrite titles_loop_cons. apply IH. apply templated_app; [exact Hc|].
  apply templated_tag; [apply in_tags_li|].
  apply templated_app; [apply templated_plain, html_escape_plain|].
  apply templated_one_tag, in_tags_li.
Qed.

Lemma first_url_plain paintings :
  Forall (Forall plain) (map snd paintings) -> Forall plain (first_url paintings).
Proof.
  induction paintings as [|[title url] paintings IH]; simpl; [constructor|].
  intros Hall. inversion Hall; subst.
  destruct (is_nil url); [now apply IH | assumption].
Qed.

Lemma link_markup url rest :
  py "<b><a href=" ++ [QUOTE] ++ url ++ [QUOTE] ++ py " target=" ++ [QUOTE]
  ++ py "_blank" ++ [QUOTE] ++ py ">" ++ rest
  = py "<b>" ++ link_tag url ++ rest.
Proof.
  unfold link_tag.
  change (py "<b><a href=") with (py "<b>" ++ py "<a href=").
  now rewrite <- !app_assoc.
Qed.

Lemma insert_item_In x l item : In item (insert_item x l) -> item = x \/ In item l.
Proof.
  induction l as [|y l IH]; simpl.
  - intros [->|[]]. now left.
  - destruct (str_lt (fst y) (fst x)); simpl.
    + intros [->|Hin]; [right; now left|].
      apply IH in Hin as [->|Hin]; [now left | right; now right].
    + intros [->|Hin]; [now left | now right].
Qed.

Lemma sorted_items_In d item : In item (sorted_items d) -> In item d.
Proof.
  induction d as [|x d IH]; simpl; [tauto|].
  intros Hin. apply insert_item_In in Hin as [->|Hin]; [now left|].
  right. now apply IH.
Qed.

Ltac tag := apply templated_tag; [simpl; tauto|].
Ltac last_tag := apply templated_one_tag; simpl; tauto.
Ltac plain_text := apply templated_plain, Forall_plain_literal; reflexivity.

Lemma urls_of_item d painter paintings :
  Forall (Forall plain) (urls_of d) -> In (painter, paintings) d ->
  Forall (Forall plain) (map snd paintings).
Proof.
  unfold urls_of. intros Hall Hin. rewrite List.Forall_forall in *.
  intros url Hurl. apply Hall. apply in_flat_map.
  exists (painter, paintings). split; [exact Hin|exact Hurl].
Qed.

Lemma popup_loop_templated d items : forall content total_shown,
  (forall painter paintings, In (painter, paintings) items ->
     Forall (Forall plain) (map snd paintings)) ->
  templated content ->
  templated (popup_loop d items content total_shown).
Proof.
  induction items as [|[painter paintings] items IH];
    intros content total Hurls Hc; [exact Hc|].
  assert (Forall plain (first_url paintings)) as Hurl
    by (apply first_url_plain, (Hurls painter); now left).
  cbn [popup_loop].
  match goal with
  | |- context [titles_loop ?a ?b ?c] =>
      pose proof (titles_loop_templated a b c) as Ht;
      destruct (titles_loop a b c) as [c3 t3]
  end.
  cbn [fst] in Ht.
  assert (templated c3) as Hc3.
  { apply Ht. apply templated_app; [|last_tag].
    destruct (negb (is_nil (first_url paintings))).
    - apply templated_app; [exact Hc|]. rewrite link_markup.
      tag. apply templated_link; [exact Hurl|].
      apply templated_app; [apply templated_plain, html_escape_plain|].
      change (py "</a></b>") with (py "</a>" ++ py "</b>"). tag. last_tag.
    - apply templated_app; [exact Hc|]. tag.
      apply templated_app; [apply templated_plain, html_escape_plain|].
      last_tag. }
  clear Ht.
  assert (templated ((if (5 <? length paintings)%nat
                      then c3 ++ py "<li><i>...+"
                           ++ str_of_nat (length paintings - 5)
                           ++ py " more</i></li>"
                      else c3) ++ py "</ul>")) as Hc5.
  { apply templated_app; [|last_tag].
    destruct (5 <? length paintings)%nat; [|exact Hc3].
    apply templated_app; [exact Hc3|].
    change (py "<li><i>...+") with (py "<li>" ++ py "<i>" ++ py "...+").
    rewrite <- !app_assoc. tag. tag.
    apply templated_app; [plain_text|].
    apply templated_app; [apply templated_plain, str_of_nat_plain|].
    change (py " more</i></li>") with (py " more" ++ py "</i>" ++ py "</li>").
    apply templated_app; [plain_text|]. tag. last_tag. }
  destruct (15 <=? t3)%nat.
  - match goal with
    | |- context [if ?b then _ else _] => destruct b
    end; [|exact Hc5].
    apply templated_app; [exact Hc5|].
    change (py "<p><i>...and ") with (py "<p>" ++ py "<i>" ++ py "...and ").
    rewrite <- !app_assoc. tag. tag.
    apply templated_app; [plain_text|].
    apply templated_app; [apply templated_plain, str_of_nat_plain|].
    change (py " more artists</i></p>")
      with (py " more artists" ++ py "</i>" ++ py "</p>").
    apply templated_app; [plain_text|]. tag. last_tag.
  - apply IH; [|exact Hc5].
    intros p ps Hin. apply (Hurls p). now right.
Qed.

(** The markup of a popup is the popup's own: whatever the museum, the
    country, the painters and the titles are, every angle bracket and
    every quote of the result belongs to one of the tags of the template
    or to the tag of a link, as long as no url holds one (urls go into
    the [href] as they are, the other texts escaped). *)
Theorem popup_markup_is_templated (museum country : pystr) (d : Dict) :
  Forall (Forall plain) (urls_of d) ->
  templated (_build_popup_html museum country d).
Proof.
  intros Hurls. unfold _build_popup_html.
  apply popup_loop_templated.
  - intros painter paintings Hin.
    apply (urls_of_item d painter); [exact Hurls|].
    now apply sorted_items_In.
  - tag. apply templated_app; [apply templated_plain, html_escape_plain|].
    change (py "</b><br><i>") with (py "</b>" ++ py "<br>" ++ py "<i>").
    rewrite <- !app_assoc. tag. tag. tag.
    apply templated_app; [apply templated_plain, html_escape_plain|].
    change (py "</i><br><br>") with (py "</i>" ++ py "<br>" ++ py "<br>").
    tag. tag. last_tag.
Qed.

Lemma popup_markup_is_templated_witness :
  templated
    (_build_popup_html (py "Louvre <Paris>") (py "France")
       (paintings_by_painter [py "Leonardo"] [py "Mona Lisa"]
          (Some [Some (py "https://en.wikipedia.org/wiki/Leonardo_da_Vinci")]))).
Proof.
  apply popup_markup_is_templated.
  change (Forall (Forall plain)
            [py "https://en.wikipedia.org/wiki/Leonardo_da_Vinci"]).
  constructor; [|constructor]. apply Forall_plain_literal. reflexivity.
Defined.

(** ** The popup in closed form *)

Lemma titles_loop_spec paintings : forall content total_shown,
  titles_loop paintings content total_shown
  = (content ++ flat_map title_item paintings,
     (total_shown + length paintings)%nat).
Proof.
  induction paintings as [|[title url] paintings IH]; intros content total.
  - cbn [titles_loop flat_map length]. now rewrite app_nil_r, Nat.add_0_r.
  - rewrite titles_loop_cons, IH. cbn [flat_map length].
    unfold title_item at 2. cbn [fst].
    rewrite <- !app_assoc. f_equal. lia.
Qed.

Lemma artists_note_spec (len idx : nat) (content : pystr) :
  (let remaining_painters := Z.of_nat len - Z.of_nat idx - 1 in
   if 0 <? remaining_painters
   then content ++ py "<p><i>...and " ++ str_of_nat (Z.to_nat remaining_painters)
        ++ py " more artists</i></p>"
   else content)
  = content ++ artists_note (len - idx - 1).
Proof.
  cbv zeta.
  replace (Z.to_nat (Z.of_nat len - Z.of_nat idx - 1)) with (len - idx - 1)%nat
    by lia.
  destruct (0 <? Z.of_nat len - Z.of_nat idx - 1) eqn:Hpos.
  - apply Z.ltb_lt in Hpos.
    destruct (len - idx - 1)%nat eqn:Hn; [lia|]. reflexivity.
  - apply Z.ltb_ge in Hpos.
    replace (len - idx - 1)%nat with 0%nat by lia.
    cbn [artists_note]. now rewrite app_nil_r.
Qed.

Lemma shown_total_cons item items :
  shown_total (item :: items) = (titles_shown item + shown_total items)%nat.
Proof. reflexivity. Qed.

Lemma listed_nil items total_shown : listed items total_shown = [] -> items = [].
Proof. destruct items; [reflexivity | discriminate]. Qed.

Lemma popup_loop_spec d items : forall content total_shown,
  popup_loop d items content total_shown
  = content ++ flat_map painter_block (listed items total_shown)
    ++ popup_note d (listed items total_shown)
         (total_shown + shown_total (listed items total_shown)).
Proof.
  induction items as [|[painter paintings] items IH]; intros content total.
  - cbn [popup_loop listed flat_map]. unfold popup_note. cbn [last].
    now rewrite !app_nil_r.
  - cbn [popup_loop]. rewrite titles_loop_spec, length_firstn.
    change (Nat.min 5 (length paintings)) with (titles_shown (painter, paintings)).
    cbn [listed].
    destruct (15 <=? total + titles_shown (painter, paintings))%nat eqn:Hstop.
    + rewrite artists_note_spec. cbn [flat_map]. rewrite app_nil_r.
      rewrite shown_total_cons. change (shown_total []) with 0%nat.
      unfold popup_note. cbn [last fst].
      rewrite Nat.add_0_r, Hstop.
      unfold painter_block. cbn [fst snd].
      destruct (is_nil (first_url paintings)); cbn [negb].
      * destruct (5 <? length paintings)%nat;
          rewrite <- ?app_assoc; rewrite ?app_nil_r; reflexivity.
      * rewrite link_markup.
        destruct (5 <? length paintings)%nat;
          rewrite <- ?app_assoc; rewrite ?app_nil_r; reflexivity.
    + rewrite IH. cbn [flat_map].
      assert (popup_note d
                ((painter, paintings)
                 :: listed items (total + titles_shown (painter, paintings)))
                (total + shown_total
                   ((painter, paintings)
                    :: listed items (total + titles_shown (painter, paintings))))
              = popup_note d
                  (listed items (total + titles_shown (painter, paintings)))
                  (total + titles_shown (painter, paintings)
                   + shown_total
                       (listed items (total + titles_shown (painter, paintings)))))
        as ->.
      { rewrite shown_total_cons, Nat.add_assoc.
        destruct (listed items (total + titles_shown (painter, paintings)))
          as [|item l] eqn:Hl.
        - change (shown_total []) with 0%nat.
          unfold popup_note. cbn [last]. now rewrite Nat.add_0_r, Hstop.
        - unfold popup_note. reflexivity. }
      unfold painter_block. cbn [fst snd].
      destruct (is_nil (first_url paintings)); cbn [negb].
      * destruct (5 <? length paintings)%nat;
          rewrite <- ?app_assoc; rewrite ?app_nil_r; reflexivity.
      * rewrite link_markup.
        destruct (5 <? length paintings)%nat;
          rewrite <- ?app_assoc; rewrite ?app_nil_r; reflexivity.
Qed.

Lemma titles_shown_le item : (titles_shown item <= 5)%nat.
Proof. unfold titles_shown. lia. Qed.

Lemma listed_prefix items : forall total_shown,
  exists rest, items = listed items total_shown ++ rest.
Proof.
  induction items as [|item items IH]; intros total; [now exists []|].
  cbn [listed].
  destruct (15 <=? total + titles_shown item)%nat; [now exists items|].
  destruct (IH (total + titles_shown item)%nat) as [rest Hrest].
  exists rest. cbn [app]. now rewrite <- Hrest.
Qed.

Lemma listed_bound items : forall total_shown,
  (total_shown < 15)%nat ->
  (total_shown + shown_total (listed items total_shown) <= 19)%nat.
Proof.
  induction items as [|item items IH]; intros total Hlt.
  - cbn [listed]. change (shown_total []) with 0%nat. lia.
  - cbn [listed]. pose proof (titles_shown_le item) as Hle.
    destruct (15 <=? total + titles_shown item)%nat eqn:Hstop.
    + rewrite shown_total_cons. change (shown_total []) with 0%nat. lia.
    + apply Nat.leb_gt in Hstop. rewrite shown_total_cons.
      specialize (IH _ Hstop). lia.
Qed.

Lemma listed_all items : forall total_shown,
  (total_shown + shown_total (listed items total_shown) < 15)%nat ->
  listed items total_shown = items.
Proof.
  induction items as [|item items IH]; intros total; [reflexivity|].
  cbn [listed].
  destruct (15 <=? total + titles_shown item)%nat eqn:Hstop;
    rewrite shown_total_cons.
  - apply Nat.leb_le in Hstop. change (shown_total []) with 0%nat. lia.
  - intros Hlt. f_equal. apply IH. lia.
Qed.

(** The order of strings. *)
Lemma str_lt_asym a : forall b, str_lt a b = true -> str_lt b a = false.
Proof.
  induction a as [|x a IH]; intros [|y b]; cbn [str_lt]; try easy.
  intros Hlt. apply orb_true_iff in Hlt as [Hlt|Hlt].
  - apply N.ltb_lt in Hlt. apply orb_false_iff. split.
    + apply N.ltb_ge. lia.
    + apply andb_false_iff. left. apply N.eqb_neq. lia.
  - apply andb_true_iff in Hlt as [Heq Hlt]. apply N.eqb_eq in Heq as ->.
    rewrite N.ltb_irrefl, N.eqb_refl. cbn [orb andb]. now apply IH.
Qed.

Lemma str_lt_irrefl a : str_lt a a = false.
Proof.
  destruct (str_lt a a) eqn:Hlt; [|reflexivity].
  now rewrite (str_lt_asym _ _ Hlt) in Hlt.
Qed.

(** [sorted] sorts. *)
Lemma insert_item_Permutation x l : Permutation (insert_item x l) (x :: l).
Proof.
  induction l as [|y l IH]; cbn [insert_item]; [reflexivity|].
  destruct (str_lt (fst y) (fst x)); [|reflexivity].
  rewrite IH. apply perm_swap.
Qed.

Lemma sorted_items_Permutation d : Permutation (sorted_items d) d.
Proof.
  induction d as [|x d IH]; [reflexivity|].
  change (sorted_items (x :: d)) with (insert_item x (sorted_items d)).
  rewrite insert_item_Permutation. now constructor.
Qed.

Lemma insert_item_HdRel (x y : pystr * list (pystr * pystr)) (l : Dict) :
  str_lt (fst y) (fst x) = true ->
  HdRel (fun a b => str_lt b a = false) (fst y) (map fst l) ->
  HdRel (fun a b => str_lt b a = false) (fst y) (map fst (insert_item x l)).
Proof.
  intros Hyx Hhd. destruct l as [|z l]; cbn [insert_item map].
  - constructor. now apply str_lt_asym.
  - destruct (str_lt (fst z) (fst x)); cbn [map].
    + constructor. now inversion Hhd.
    + constructor. now apply str_lt_asym.
Qed.

Lemma insert_item_Sorted x (l : Dict) :
  Sorted (fun a b => str_lt b a = false) (map fst l) ->
  Sorted (fun a b => str_lt b a = false) (map fst (insert_item x l)).
Proof.
  induction l as [|y l IH]; cbn [insert_item map]; intros Hs.
  - repeat constructor.
  - destruct (str_lt (fst y) (fst x)) eqn:Hyx; cbn [map].
    + inversion Hs; subst. constructor; [now apply IH|].
      now apply insert_item_HdRel.
    + constructor; [exact Hs|]. now constructor.
Qed.

Lemma sorted_items_Sorted d :
  Sorted (fun a b => str_lt b a = false) (map fst (sorted_items d)).
Proof.
  induction d as [|x d IH]; [constructor|].
  change (sorted_items (x :: d)) with (insert_item x (sorted_items d)).
  now apply insert_item_Sorted.
Qed.

Lemma sorted_items_ascending d : ascending (map fst d) -> sorted_items d = d.
Proof.
  unfold ascending.
  induction d as [|x d IH]; [reflexivity|]. cbn [map]. intros Hs.
  inversion Hs as [|? ? Hd Hall]; subst.
  change (sorted_items (x :: d)) with (insert_item x (sorted_items d)).
  rewrite (IH Hd). destruct d as [|y d]; [reflexivity|].
  cbn [insert_item]. cbn [map] in Hall. inversion Hall as [|? ? Hxy ?]; subst.
  now rewrite (str_lt_asym _ _ Hxy).
Qed.

Lemma index_of_ascending l : forall k rest,
  ascending (l ++ k :: rest) -> index_of k (l ++ k :: rest) = length l.
Proof.
  unfold ascending.
  induction l as [|a l IH]; intros k rest Hs; cbn [app index_of length].
  - now rewrite bool_decide_eq_true_2.
  - cbn [app] in Hs. inversion Hs as [|? ? Hd Hall]; subst.
    rewrite bool_decide_eq_false_2.
    + f_equal. now apply IH.
    + intros ->. rewrite List.Forall_forall in Hall.
      specialize (Hall k). rewrite str_lt_irrefl in Hall.
      discriminate Hall. apply in_or_app. right. now left.
Qed.

Lemma popup_note_ascending (d items rest : Dict) total_shown :
  d = items ++ rest -> ascending (map fst d) ->
  (items = [] -> rest = []) ->
  ((total_shown < 15)%nat -> rest = []) ->
  popup_note d items total_shown = artists_note (length d - length items).
Proof.
  intros -> Hasc Hnil Hall. unfold popup_note.
  destruct items as [|item0 items0] using rev_ind.
  - rewrite (Hnil eq_refl). reflexivity.
  - clear IHitems0 Hnil. rewrite last_snoc.
    rewrite <- app_assoc in *. cbn [app] in *.
    rewrite map_app in *. cbn [map] in *.
    rewrite (index_of_ascending _ _ _ Hasc).
    rewrite !length_app, length_map. cbn [length].
    destruct (15 <=? total_shown)%nat eqn:Hstop.
    + f_equal. lia.
    + apply Nat.leb_gt in Hstop. rewrite (Hall Hstop). cbn [length].
      now replace (length items0 + 1 - (length items0 + 1))%nat with 0%nat by lia.
Qed.

(** The popup in closed form: after the heading come the blocks of the
    painters in the order of their names, each with at most five titles,
    up to and with the painter at which fifteen titles are shown; so a
    popup shows at most nineteen titles, and all painters when fewer than
    fifteen.  The closing note counts from the place the last painter
    listed has among the keys of the dict, not among the sorted names. *)
Theorem popup_lists_painters_by_name (museum country : pystr) (d : Dict) :
  let items := listed (sorted_items d) 0 in
  _build_popup_html museum country d
    = popup_header museum country ++ flat_map painter_block items
      ++ popup_note d items (shown_total items)
  /\ Permutation (sorted_items d) d
  /\ Sorted (fun a b => str_lt b a = false) (map fst (sorted_items d))
  /\ (exists rest, sorted_items d = items ++ rest)
  /\ (shown_total items <= 19)%nat
  /\ ((shown_total items < 15)%nat -> items = sorted_items d).
Proof.
  intros items. subst items. repeat split.
  - unfold _build_popup_html. cbv zeta. rewrite popup_loop_spec.
    unfold popup_header. rewrite <- !app_assoc. reflexivity.
  - apply sorted_items_Permutation.
  - apply sorted_items_Sorted.
  - apply listed_prefix.
  - apply (listed_bound (sorted_items d) 0). lia.
  - intros Hlt. now apply listed_all.
Qed.

(** When the painters were put into the dict in the order of their names,
    the closing note gives the number of the painters the popup leaves
    out, and there is no note when it leaves out none. *)
Theorem popup_note_counts_painters_left_out (museum country : pystr) (d : Dict) :
  ascending (map fst d) ->
  _build_popup_html museum country d
  = popup_header museum country ++ flat_map painter_block (listed d 0)
    ++ artists_note (length d - length (listed d 0)).
Proof.
  intros Hasc. unfold _build_popup_html. cbv zeta.
  rewrite (sorted_items_ascending d Hasc), popup_loop_spec.
  destruct (listed_prefix d 0) as [rest Hrest].
  rewrite (popup_note_ascending d (listed d 0) rest _ Hrest Hasc).
  - unfold popup_header. rewrite <- !app_assoc. reflexivity.
  - intros Hnil. apply listed_nil in Hnil. subst d.
    cbn [listed app] in Hrest. now symmetry.
  - intros Hlt. apply listed_all in Hlt. rewrite Hlt in Hrest.
    apply (app_inv_head d). now rewrite app_nil_r.
Qed.

Lemma popup_note_counts_painters_left_out_witness :
  _build_popup_html (py "Louvre") (py "France") painters_in_order
  = popup_header (py "Louvre") (py "France")
    ++ flat_map painter_block (listed painters_in_order 0)
    ++ artists_note (length painters_in_order
                     - length (listed painters_in_order 0)).
Proof.
  apply popup_note_counts_painters_left_out.
  unfold ascending, painters_in_order. cbn [map fst].
  repeat (constructor; [|repeat (constructor; [reflexivity|]); constructor]).
  constructor.
Defined.

(** Out of that order the note can miss painters: here Degas comes first
    in the dict and last in the popup's order, the fifteen titles are
    reached with Corot, the last key of the dict, and no note is written
    though Degas is left out. *)
Example popup_note_out_of_order :
  _build_popup_html (py "Louvre") (py "France") painters_out_of_order
  = popup_header (py "Louvre") (py "France")
    ++ flat_map painter_block (firstn 3 painters_in_order).
Proof. vm_compute. reflexivity. Qed.
